(** * hyperdash/experiment.py: the Experiment facade, its runner signal,
      the worker handshake and the lazy callback registry.

    The Python module is embedded statement by statement.  Sequential
    methods are functions on a [World] (the process globals the module
    touches together with one [Experiment] instance); [Experiment.end]
    and the worker closure [run] are given a program counter each, so
    that the two threads can be interleaved by a schedule. *)

From stdpp Require Import gmap strings list.
From Stdlib Require Import ZArith Lia.

Local Open Scope string_scope.
Local Open Scope Z_scope.
Local Open Scope list_scope.

(** ** Python values and exceptions *)

(** The values that flow through the module: metric values, dictionary
    entries of [Callbacks._callbacks], return values.  Floats are carried as
    mantissa and exponent; the module never computes with them. *)
Inductive pyval :=
| PyNone
| PyBool (b : bool)
| PyInt (n : Z)
| PyFloat (mantissa exponent : Z)
| PyStr (s : string)
| PyKerasCallback.            (* an instance of [_KerasCallback] bound to the experiment *)

#[global] Instance pyval_eq_dec : EqDecision pyval.
Proof. solve_decision. Defined.

(** Python truth value, as used by [not cb] and [not logs]. *)
Definition truthy (v : pyval) : bool :=
  match v with
  | PyNone => false
  | PyBool b => b
  | PyInt n => negb (n =? 0)
  | PyFloat m _ => negb (m =? 0)
  | PyStr s => match s with EmptyString => false | String _ _ => true end
  | PyKerasCallback => true
  end.

(** [v is False] *)
Definition is_False (v : pyval) : bool :=
  match v with PyBool false => true | _ => false end.

(** [v is not None] *)
Definition is_not_None (v : pyval) : bool :=
  match v with PyNone => false | _ => true end.

(** [d.get(k)]: the entry, or [None] when the key is absent. *)
Definition dict_get (d : gmap string pyval) (k : string) : pyval :=
  default PyNone (d !! k).

Inductive exn :=
| ImportError
| Exception (msg : string).

Inductive result (A : Type) :=
| Ok (a : A)
| Raise (e : exn).
Arguments Ok {A} a.
Arguments Raise {A} e.

Definition KERAS : string := "keras".

(** ** Standard library objects *)

(** Identity of a stream object: a stream of the process, or an [IOBuffer]
    allocated by a constructor. *)
Inductive stream :=
| Stream (id : nat)
| IOBuffer (id : nat).

#[global] Instance stream_eq_dec : EqDecision stream.
Proof. solve_decision. Defined.

(** [queue.Queue]: an unbounded FIFO. *)
Module Queue.
Definition t := list pyval.

Definition Queue : t := [].

Definition put (item : pyval) (q : t) : t := q ++ [item].

Inductive get_result :=
| Got (item : pyval) (rest : t)
| Waits                     (* the caller stays blocked: nothing to take *)
| RaisesEmpty.

(** [q.get(block, timeout)]: without a timeout a blocking get waits
    until an item is there. *)
Definition get (block : bool) (timeout : option Z) (q : t) : get_result :=
  match q with
  | item :: rest => Got item rest
  | [] => if block then match timeout with
                        | None => Waits
                        | Some _ => RaisesEmpty
                        end
          else RaisesEmpty
  end.
End Queue.

(** ** class ExperimentRunner *)
Module ExperimentRunner.
Record t := mk {
  done : bool;
  lock : bool;                      (* [Lock()]: true while held *)
  exit_cleanly : bool;
  start_time : option Z;
  end_time : option Z
}.

(** [__init__(self, done=False, exit_cleanly=True)] *)
Definition __init__ (done exit_cleanly : bool) : t :=
  {| done := done; lock := false; exit_cleanly := exit_cleanly;
     start_time := None; end_time := None |}.

Definition default_done : bool := false.
Definition default_exit_cleanly : bool := true.

(** [with self.lock: return ...]: [None] when the lock is held by someone
    else (the caller would wait). *)
Definition is_done (r : t) : option (bool * bool) :=
  if lock r then None else Some (exit_cleanly r, done r).

Definition get_return_val (r : t) : option pyval :=
  if lock r then None else Some PyNone.

Definition get_exception (r : t) : option pyval :=
  if lock r then None else Some PyNone.

Definition should_run_as_thread (r : t) : bool := false.

Definition get_start_and_end_time (r : t) : option Z * option Z :=
  (start_time r, end_time r).

Definition _set_start_time (now : Z) (r : t) : t :=
  {| done := done r; lock := lock r; exit_cleanly := exit_cleanly r;
     start_time := Some now; end_time := end_time r |}.

Definition _set_end_time (now : Z) (r : t) : t :=
  {| done := done r; lock := lock r; exit_cleanly := exit_cleanly r;
     start_time := start_time r; end_time := Some now |}.

(** the attribute writes of [Experiment.end] *)
Definition set_exit_cleanly (b : bool) (r : t) : t :=
  {| done := done r; lock := lock r; exit_cleanly := b;
     start_time := start_time r; end_time := end_time r |}.

Definition set_done (b : bool) (r : t) : t :=
  {| done := b; lock := lock r; exit_cleanly := exit_cleanly r;
     start_time := start_time r; end_time := end_time r |}.
End ExperimentRunner.

(** ** The process and the Experiment instance *)

(** What the module reads and writes outside the instance: the two stream
    slots of [sys], the import machinery (what importing
    [keras.callbacks] does in this interpreter, and the import statements
    executed so far), the allocator of buffer identities and the local wall
    clock that [datetime.now()] reads. *)
Record Process := mkProcess {
  sys_stdout : stream;
  sys_stderr : stream;
  keras_import : result unit;
  import_attempts : list string;
  next_buffer : nat;
  wall_clock : Z
}.

Inductive log_record :=
| INFO (msg : string)
| WARNING (msg : string).

(** Modelled from the spec: the logger returned by [get_logger]
    (hyperdash/utils.py is not part of the sources), "(modelName, runId,
    sink) -> logger exposing info(msg) and warn(msg)".  It is represented by
    its sink and the records handed to it so far. *)
Record Logger := mkLogger {
  logger_name : string;
  logger_run : string;
  logger_sink : stream;
  records : list log_record
}.

Definition get_logger (model_name run_uuid : string) (sink : stream) : Logger :=
  {| logger_name := model_name; logger_run := run_uuid;
     logger_sink := sink; records := [] |}.

Definition emit (r : log_record) (l : Logger) : Logger :=
  {| logger_name := logger_name l; logger_run := logger_run l;
     logger_sink := logger_sink l; records := records l ++ [r] |}.

Definition info (msg : string) : Logger -> Logger := emit (INFO msg).
Definition warn (msg : string) : Logger -> Logger := emit (WARNING msg).

(** The calls the delivery client [HDClient] can receive from this module. *)
Inductive client_call :=
| ClientMetric (name : string) (value : pyval) (log : bool)
| ClientParam (name : string) (value : pyval) (log : bool)
| ClientIter (n : pyval) (log : bool).

Record Experiment := mkExperiment {
  model_name : string;
  _callbacks : gmap string pyval;          (* [self.callbacks._callbacks] *)
  _experiment_runner : ExperimentRunner.t;
  lock : bool;                             (* [self.lock]: true while held *)
  _old_out : stream;
  _old_err : stream;
  _logger : Logger;
  _hd_client : list client_call;           (* the calls forwarded so far *)
  _hd_out : stream * stream;               (* the buffers handed to [HyperDash] *)
  done_chan : Queue.t;
  _ended : bool
}.

Record World := mkWorld {
  proc : Process;
  self : Experiment
}.

(** *** Attribute assignments *)

Definition set_sys_streams (out err : stream) (p : Process) : Process :=
  {| sys_stdout := out; sys_stderr := err; keras_import := keras_import p;
     import_attempts := import_attempts p; next_buffer := next_buffer p;
     wall_clock := wall_clock p |}.

Definition record_import (name : string) (p : Process) : Process :=
  {| sys_stdout := sys_stdout p; sys_stderr := sys_stderr p;
     keras_import := keras_import p;
     import_attempts := import_attempts p ++ [name];
     next_buffer := next_buffer p; wall_clock := wall_clock p |}.

Definition alloc_buffers (p : Process) : Process :=
  {| sys_stdout := sys_stdout p; sys_stderr := sys_stderr p;
     keras_import := keras_import p; import_attempts := import_attempts p;
     next_buffer := S (S (next_buffer p)); wall_clock := wall_clock p |}.

Definition set_wall_clock (t : Z) (p : Process) : Process :=
  {| sys_stdout := sys_stdout p; sys_stderr := sys_stderr p;
     keras_import := keras_import p; import_attempts := import_attempts p;
     next_buffer := next_buffer p; wall_clock := t |}.

(** [datetime.now()] *)
Definition datetime_now (p : Process) : Z := wall_clock p.

Definition set_callbacks (d : gmap string pyval) (e : Experiment) : Experiment :=
  {| model_name := model_name e; _callbacks := d;
     _experiment_runner := _experiment_runner e; lock := lock e;
     _old_out := _old_out e; _old_err := _old_err e; _logger := _logger e;
     _hd_client := _hd_client e; _hd_out := _hd_out e;
     done_chan := done_chan e; _ended := _ended e |}.

Definition set_runner (r : ExperimentRunner.t) (e : Experiment) : Experiment :=
  {| model_name := model_name e; _callbacks := _callbacks e;
     _experiment_runner := r; lock := lock e;
     _old_out := _old_out e; _old_err := _old_err e; _logger := _logger e;
     _hd_client := _hd_client e; _hd_out := _hd_out e;
     done_chan := done_chan e; _ended := _ended e |}.

Definition set_lock (b : bool) (e : Experiment) : Experiment :=
  {| model_name := model_name e; _callbacks := _callbacks e;
     _experiment_runner := _experiment_runner e; lock := b;
     _old_out := _old_out e; _old_err := _old_err e; _logger := _logger e;
     _hd_client := _hd_client e; _hd_out := _hd_out e;
     done_chan := done_chan e; _ended := _ended e |}.

Definition set_logger (l : Logger) (e : Experiment) : Experiment :=
  {| model_name := model_name e; _callbacks := _callbacks e;
     _experiment_runner := _experiment_runner e; lock := lock e;
     _old_out := _old_out e; _old_err := _old_err e; _logger := l;
     _hd_client := _hd_client e; _hd_out := _hd_out e;
     done_chan := done_chan e; _ended := _ended e |}.

Definition set_hd_client (c : list client_call) (e : Experiment) : Experiment :=
  {| model_name := model_name e; _callbacks := _callbacks e;
     _experiment_runner := _experiment_runner e; lock := lock e;
     _old_out := _old_out e; _old_err := _old_err e; _logger := _logger e;
     _hd_client := c; _hd_out := _hd_out e;
     done_chan := done_chan e; _ended := _ended e |}.

Definition set_done_chan (q : Queue.t) (e : Experiment) : Experiment :=
  {| model_name := model_name e; _callbacks := _callbacks e;
     _experiment_runner := _experiment_runner e; lock := lock e;
     _old_out := _old_out e; _old_err := _old_err e; _logger := _logger e;
     _hd_client := _hd_client e; _hd_out := _hd_out e;
     done_chan := q; _ended := _ended e |}.

Definition set_ended (b : bool) (e : Experiment) : Experiment :=
  {| model_name := model_name e; _callbacks := _callbacks e;
     _experiment_runner := _experiment_runner e; lock := lock e;
     _old_out := _old_out e; _old_err := _old_err e; _logger := _logger e;
     _hd_client := _hd_client e; _hd_out := _hd_out e;
     done_chan := done_chan e; _ended := b |}.

Definition on_self (f : Experiment -> Experiment) (w : World) : World :=
  {| proc := proc w; self := f (self w) |}.

Definition on_proc (f : Process -> Process) (w : World) : World :=
  {| proc := f (proc w); self := self w |}.

(** ** class Experiment *)

(** [Experiment.__init__(self, model_name, api_key_getter, capture_io)].
    [run_uuid] is the value of [str(uuid.uuid4())].  The worker thread is
    started here; its program counter lives in the system state below. *)
Definition Experiment__init__ (p : Process) (model_name : string)
    (api_key_getter : option string) (capture_io : bool)
    (run_uuid : string) : World :=
  let old_out := sys_stdout p in
  let old_err := sys_stderr p in
  let out := (IOBuffer (next_buffer p), IOBuffer (S (next_buffer p))) in
  let p1 := alloc_buffers p in
  let logger := get_logger model_name run_uuid (fst out) in
  let p2 := if capture_io then set_sys_streams (fst out) (snd out) p1 else p1 in
  {| proc := p2;
     self := {| model_name := model_name;
                _callbacks := ∅;
                _experiment_runner :=
                  ExperimentRunner.__init__ ExperimentRunner.default_done
                                            ExperimentRunner.default_exit_cleanly;
                lock := false;
                _old_out := old_out;
                _old_err := old_err;
                _logger := logger;
                _hd_client := [];
                _hd_out := out;
                done_chan := Queue.Queue;
                _ended := false |} |}.

Definition metric_warning (name : string) : string :=
  String.append "Cannot send metric "
    (String.append name ", experiment ended. Please start a new experiment.").

Definition param_warning (name : string) : string :=
  String.append "Cannot send param "
    (String.append name ", experiment ended. Please start a new experiment.").

Definition iter_warning : string :=
  "Cannot iterate, experiment ended. Please start a new experiment.".

Section Facade.

(** The delivery client is not part of the sources.  It is built with the
    experiment's logger ([HDClient(self._logger, ...)]), so a call can both
    answer (or raise) and hand records to that logger: what it answers and
    what it logs, given the calls it has already received, is a
    parameter. *)
Variable client_reply : list client_call -> client_call -> result pyval * list log_record.

Definition forward (c : client_call) (w : World) : result pyval * World :=
  (fst (client_reply (_hd_client (self w)) c),
   on_self (set_logger (fold_left (fun l r => emit r l)
                                  (snd (client_reply (_hd_client (self w)) c))
                                  (_logger (self w))))
           (on_self (set_hd_client (_hd_client (self w) ++ [c])) w)).

Definition metric (name : string) (value : pyval) (log : bool) (w : World)
  : result pyval * World :=
  if _ended (self w)
  then (Ok PyNone, on_self (set_logger (warn (metric_warning name) (_logger (self w)))) w)
  else forward (ClientMetric name value log) w.

Definition param (name : string) (value : pyval) (log : bool) (w : World)
  : result pyval * World :=
  if _ended (self w)
  then (Ok PyNone, on_self (set_logger (warn (param_warning name) (_logger (self w)))) w)
  else forward (ClientParam name value log) w.

Definition iter (n : pyval) (log : bool) (w : World) : result pyval * World :=
  if _ended (self w)
  then (Ok PyNone, on_self (set_logger (warn iter_warning (_logger (self w)))) w)
  else forward (ClientIter n log) w.

(** [Experiment.log(self, string)] *)
Definition log (s : string) (w : World) : result pyval * World :=
  (Ok PyNone, on_self (set_logger (info s (_logger (self w)))) w).

(** *** [Callbacks.keras] *)
Definition keras (w : World) : result pyval * World :=
  let cb := dict_get (_callbacks (self w)) KERAS in
  if is_False cb then (Ok PyNone, w)
  else if negb (truthy cb) then
    let w1 := on_proc (record_import "keras.callbacks") w in
    match keras_import (proc w1) with
    | Ok _ =>
        (Ok PyKerasCallback,
         on_self (set_callbacks (<[KERAS := PyKerasCallback]> (_callbacks (self w1)))) w1)
    | Raise ImportError =>
        (Ok PyNone,
         on_self (set_callbacks (<[KERAS := PyBool false]> (_callbacks (self w1)))) w1)
    | Raise e => (Raise e, w1)
    end
  else (Ok cb, w).

End Facade.

(** *** [_KerasCallback.on_epoch_end(self, epoch, logs=None)]

    The adapter reports through the object injected as [self._exp];
    [exp_metric] is that object's [metric] method, acting on a state of the
    object's own. *)
Section KerasCallback.

Context {St : Type}.
Variable exp_metric : string -> pyval -> bool -> St -> result pyval * St.

Definition on_epoch_end (epoch : Z) (logs : option (gmap string pyval)) (st : St)
  : result pyval * St :=
  let logs := match logs with
              | None => ∅
              | Some d => if decide (d = ∅) then ∅ else d
              end in
  let val_acc := dict_get logs "val_accuracy" in
  let val_loss := dict_get logs "val_loss" in
  let '(r1, st1) := if is_not_None val_acc
                    then exp_metric "val_accuracy" val_acc true st
                    else (Ok PyNone, st) in
  match r1 with
  | Raise e => (Raise e, st1)
  | Ok _ =>
      let '(r2, st2) := if is_not_None val_loss
                        then exp_metric "val_loss" val_loss true st1
                        else (Ok PyNone, st1) in
      match r2 with
      | Raise e => (Raise e, st2)
      | Ok _ => (Ok PyNone, st2)
      end
  end.

End KerasCallback.

(** An experiment that only keeps the reports it is given, in order. *)
Definition recording_metric (name : string) (value : pyval) (log : bool)
    (reports : list (string * pyval * bool)) : result pyval * list (string * pyval * bool) :=
  (Ok PyNone, reports ++ [(name, value, log)]).


(** ** [Experiment.end], one statement at a time *)

Inductive end_pc :=
| E_check            (* if self._ended:                                   *)
| E_set_ended        (* self._ended = True                                *)
| E_acquire          (* with self.lock:                                   *)
| E_restore          (*     sys.stdout, sys.stderr = self._old_out, ...   *)
| E_exit_cleanly     (*     self._experiment_runner.exit_cleanly = True   *)
| E_done             (*     self._experiment_runner.done = True           *)
| E_release          (* (leaving the with block)                          *)
| E_get              (* self.done_chan.get(block=True, timeout=None)      *)
| E_return.          (* return                                            *)

#[global] Instance end_pc_eq_dec : EqDecision end_pc.
Proof. solve_decision. Defined.

Inductive step_result :=
| Goto (pc : end_pc) (w : World)
| Return (w : World)
| Throw (e : exn) (w : World)
| Blocked.

Definition end_step (pc : end_pc) (w : World) : step_result :=
  match pc with
  | E_check => if _ended (self w) then Goto E_return w else Goto E_set_ended w
  | E_set_ended => Goto E_acquire (on_self (set_ended true) w)
  | E_acquire => if lock (self w) then Blocked
                 else Goto E_restore (on_self (set_lock true) w)
  | E_restore =>
      Goto E_exit_cleanly
           (on_proc (set_sys_streams (_old_out (self w)) (_old_err (self w))) w)
  | E_exit_cleanly =>
      Goto E_done
           (on_self (set_runner (ExperimentRunner.set_exit_cleanly true
                                   (_experiment_runner (self w)))) w)
  | E_done =>
      Goto E_release
           (on_self (set_runner (ExperimentRunner.set_done true
                                   (_experiment_runner (self w)))) w)
  | E_release => Goto E_get (on_self (set_lock false) w)
  | E_get =>
      match Queue.get true None (done_chan (self w)) with
      | Queue.Got _ rest => Goto E_return (on_self (set_done_chan rest) w)
      | Queue.Waits => Blocked
      | Queue.RaisesEmpty => Throw (Exception "Empty") w
      end
  | E_return => Return w
  end.

(** How a call of [end] by a thread that is alone can finish. *)
Inductive outcome :=
| Returns (w : World)
| WaitsAt (pc : end_pc) (w : World)
| Fails (e : exn) (w : World)
| OutOfFuel.

(** Runs [end] from [pc]; also gives the statements executed, in order. *)
Fixpoint end_run (fuel : nat) (pc : end_pc) (w : World) : list end_pc * outcome :=
  match fuel with
  | O => ([], OutOfFuel)
  | S fuel' =>
      match end_step pc w with
      | Goto pc' w' => let '(tr, o) := end_run fuel' pc' w' in (pc :: tr, o)
      | Return w' => ([pc], Returns w')
      | Throw e w' => ([pc], Fails e w')
      | Blocked => ([], WaitsAt pc w)
      end
  end.

(** [Experiment.end(self)]: nine statements at most. *)
Definition end_ (w : World) : list end_pc * outcome := end_run 9 E_check w.

(** ** The worker closure [run] of [Experiment.__init__] *)

Inductive worker_pc :=
| W_set_start        (* self._experiment_runner._set_start_time(datetime.now()) *)
| W_run              (* self._hd.run()                                          *)
| W_set_end          (* self._experiment_runner._set_end_time(datetime.now())   *)
| W_put              (* self.done_chan.put(True)                                *)
| W_exited           (* the closure has returned                                *)
| W_died.            (* the closure was left by an exception                    *)

#[global] Instance worker_pc_eq_dec : EqDecision worker_pc.
Proof. solve_decision. Defined.

(** Modelled from the spec: the run loop [HyperDash.run]
    (hyperdash/hyper_dash.py is not part of the sources), "opaque callable
    consuming Capture Buffers, the original streams, the logger, and the
    Runner Signal".  One scheduling slot of the loop either keeps it running
    (handing records to the logger meanwhile), or sees it return, or sees it
    raise; it reads the Runner Signal and writes none of the fields of this
    module. *)
Inductive loop_event :=
| LoopRuns (emits : list log_record)
| LoopReturns
| LoopRaises (e : exn).

Definition worker_step (ev : loop_event) (pc : worker_pc) (w : World)
  : option (worker_pc * World) :=
  match pc with
  | W_set_start =>
      Some (W_run, on_self (set_runner (ExperimentRunner._set_start_time
                                          (datetime_now (proc w))
                                          (_experiment_runner (self w)))) w)
  | W_run =>
      match ev with
      | LoopRuns emits =>
          Some (W_run, on_self (set_logger (fold_left (fun l r => emit r l) emits
                                                      (_logger (self w)))) w)
      | LoopReturns => Some (W_set_end, w)
      | LoopRaises _ => Some (W_died, w)
      end
  | W_set_end =>
      Some (W_put, on_self (set_runner (ExperimentRunner._set_end_time
                                          (datetime_now (proc w))
                                          (_experiment_runner (self w)))) w)
  | W_put =>
      Some (W_exited, on_self (set_done_chan (Queue.put (PyBool true)
                                                (done_chan (self w)))) w)
  | W_exited | W_died => None
  end.

(** ** The two threads together *)

Inductive call :=
| CallMetric (name : string) (value : pyval) (log : bool)
| CallParam (name : string) (value : pyval) (log : bool)
| CallIter (n : pyval) (log : bool)
| CallLog (s : string)
| CallKeras
| CallOnEpochEnd (epoch : Z) (logs : option (gmap string pyval)).

Inductive caller_state :=
| Idle
| InEnd (pc : end_pc).

Record Sys := mkSys {
  world : World;
  caller : caller_state;
  worker : worker_pc
}.

(** What the scheduler and the environment choose at each step: which
    thread moves, what the caller invokes, what the run loop does, and
    what the wall clock shows next (time passing, or the clock being set). *)
Inductive action :=
| Call (c : call)
| EndCall
| EndStep
| WorkerStep (ev : loop_event)
| ClockSet (t : Z).

(** What a step does: the call made and its result, or the statement that
    was completed. *)
Inductive event :=
| Ev_call (c : call) (r : result pyval)
| Ev_end_called
| Ev_end (pc : end_pc)
| Ev_worker (pc : worker_pc)
| Ev_loop_running                 (* [self._hd.run()] is still going *)
| Ev_worker_raised (e : exn)      (* [self._hd.run()] raised *)
| Ev_clock (before after : Z).

Definition worker_event (pc : worker_pc) (ev : loop_event) : event :=
  match pc, ev with
  | W_run, LoopRuns _ => Ev_loop_running
  | W_run, LoopRaises e => Ev_worker_raised e
  | _, _ => Ev_worker pc
  end.

#[global] Instance exn_eq_dec : EqDecision exn.
Proof. solve_decision. Defined.
#[global] Instance result_eq_dec `{EqDecision A} : EqDecision (result A).
Proof. solve_decision. Defined.

Section System.

Variable client_reply : list client_call -> client_call -> result pyval * list log_record.

Definition do_call (c : call) (w : World) : option (result pyval * World) :=
  match c with
  | CallMetric name value lg => Some (metric client_reply name value lg w)
  | CallParam name value lg => Some (param client_reply name value lg w)
  | CallIter n lg => Some (iter client_reply n lg w)
  | CallLog s => Some (log s w)
  | CallKeras => Some (keras w)
  | CallOnEpochEnd epoch logs =>
      (* the adapter only exists once the accessor has built it *)
      match dict_get (_callbacks (self w)) KERAS with
      | PyKerasCallback => Some (on_epoch_end (metric client_reply) epoch logs w)
      | _ => None
      end
  end.

Definition sys_step (a : action) (s : Sys) : option (Sys * event) :=
  match a, caller s with
  | Call c, Idle =>
      match do_call c (world s) with
      | Some (r, w') =>
          Some ({| world := w'; caller := Idle; worker := worker s |}, Ev_call c r)
      | None => None
      end
  | EndCall, Idle =>
      Some ({| world := world s; caller := InEnd E_check; worker := worker s |},
            Ev_end_called)
  | EndStep, InEnd pc =>
      match end_step pc (world s) with
      | Goto pc' w' =>
          Some ({| world := w'; caller := InEnd pc'; worker := worker s |}, Ev_end pc)
      | Return w' | Throw _ w' =>
          Some ({| world := w'; caller := Idle; worker := worker s |}, Ev_end pc)
      | Blocked => None
      end
  | WorkerStep ev, _ =>
      match worker_step ev (worker s) (world s) with
      | Some (pc', w') =>
          Some ({| world := w'; caller := caller s; worker := pc' |},
                worker_event (worker s) ev)
      | None => None
      end
  | ClockSet t, _ =>
      Some ({| world := on_proc (set_wall_clock t) (world s);
               caller := caller s; worker := worker s |},
            Ev_clock (wall_clock (proc (world s))) t)
  | _, _ => None
  end.

Fixpoint run_sched (sched : list action) (s : Sys) : option (Sys * list event) :=
  match sched with
  | [] => Some (s, [])
  | a :: rest =>
      match sys_step a s with
      | Some (s', e) =>
          match run_sched rest s' with
          | Some (s'', tr) => Some (s'', e :: tr)
          | None => None
          end
      | None => None
      end
  end.

(** The state right after [Experiment(model_name, api_key_getter,
    capture_io)] has returned: the caller holds the instance, the thread
    has been started. *)
Definition boot (p : Process) (model_name : string) (api_key_getter : option string)
    (capture_io : bool) (run_uuid : string) : Sys :=
  {| world := Experiment__init__ p model_name api_key_getter capture_io run_uuid;
     caller := Idle;
     worker := W_set_start |}.

End System.

(** * Notions used by the properties *)

(** ** Invariants of the two threads *)

(** The fields the handshake, the streams and the runner signal depend on. *)
Record Core := mkCore {
  c_stdout : stream;
  c_stderr : stream;
  c_keras : result unit;
  c_clock : Z;
  c_runner : ExperimentRunner.t;
  c_lock : bool;
  c_old_out : stream;
  c_old_err : stream;
  c_chan : Queue.t;
  c_ended : bool
}.

Definition core (w : World) : Core :=
  {| c_stdout := sys_stdout (proc w); c_stderr := sys_stderr (proc w);
     c_keras := keras_import (proc w); c_clock := wall_clock (proc w);
     c_runner := _experiment_runner (self w); c_lock := lock (self w);
     c_old_out := _old_out (self w); c_old_err := _old_err (self w);
     c_chan := done_chan (self w); c_ended := _ended (self w) |}.

(** The statements of [end] that run inside [with self.lock]. *)
Definition holds_lock (c : caller_state) : bool :=
  match c with
  | InEnd (E_restore | E_exit_cleanly | E_done | E_release) => true
  | _ => false
  end.

(** The value of [_ended] that a position in [end] implies. *)
Definition ended_at (c : caller_state) : option bool :=
  match c with
  | InEnd E_set_ended => Some false
  | InEnd (E_acquire | E_restore | E_exit_cleanly | E_done | E_release
           | E_get | E_return) => Some true
  | _ => None
  end.

(** The first call of [end] has taken the token: the flag is set and the
    caller is past the [get]. *)
Definition consumed (ended : bool) (c : caller_state) : bool :=
  ended && match c with
           | Idle | InEnd E_check | InEnd E_return => true
           | _ => false
           end.

Definition times_at (wk : worker_pc) (r : ExperimentRunner.t) : Prop :=
  match wk with
  | W_set_start =>
      ExperimentRunner.start_time r = None /\ ExperimentRunner.end_time r = None
  | W_run | W_set_end | W_died =>
      is_Some (ExperimentRunner.start_time r) /\ ExperimentRunner.end_time r = None
  | W_put | W_exited =>
      is_Some (ExperimentRunner.start_time r) /\ is_Some (ExperimentRunner.end_time r)
  end.

Record core_inv (p : Process) (capture_io : bool)
    (k : Core) (c : caller_state) (wk : worker_pc) : Prop := {
  inv_lock : c_lock k = holds_lock c;
  inv_ended : forall b, ended_at c = Some b -> c_ended k = b;
  inv_chan :
    c_chan k = if bool_decide (wk = W_exited) && negb (consumed (c_ended k) c)
               then [PyBool true] else [];
  inv_consumed : consumed (c_ended k) c = true -> wk = W_exited;
  inv_exit_cleanly : ExperimentRunner.exit_cleanly (c_runner k) = true;
  inv_runner_lock : ExperimentRunner.lock (c_runner k) = false;
  inv_old_out : c_old_out k = sys_stdout p;
  inv_old_err : c_old_err k = sys_stderr p;
  inv_streams :
    capture_io = false -> c_stdout k = sys_stdout p /\ c_stderr k = sys_stderr p;
  inv_keras : c_keras k = keras_import p;
  inv_times : times_at wk (c_runner k)
}.

Definition state_inv (p : Process) (capture_io : bool) (s : Sys) : Prop :=
  core_inv p capture_io (core (world s)) (caller s) (worker s).

(** ** Events *)

Fixpoint count_ev (f : event -> bool) (tr : list event) : nat :=
  match tr with
  | [] => O
  | e :: tr' => ((if f e then 1 else 0) + count_ev f tr')%nat
  end.

Definition is_put (e : event) : bool :=
  match e with Ev_worker W_put => true | _ => false end.

Definition is_get (e : event) : bool :=
  match e with Ev_end E_get => true | _ => false end.

Definition is_end_return (e : event) : bool :=
  match e with Ev_end E_return => true | _ => false end.

(** [self._hd.run()] has returned *)
Definition is_loop_return (e : event) : bool :=
  match e with Ev_worker W_run => true | _ => false end.

Definition is_set_start (e : event) : bool :=
  match e with Ev_worker W_set_start => true | _ => false end.

Definition is_set_end (e : event) : bool :=
  match e with Ev_worker W_set_end => true | _ => false end.

Definition is_keras_access (e : event) : bool :=
  match e with Ev_call CallKeras _ => true | _ => false end.

(** Every event satisfying [f] comes after a prefix satisfying [P]. *)
Definition before (f : event -> bool) (P : list event -> Prop) (tr : list event) : Prop :=
  forall tr1 e tr2, tr = tr1 ++ e :: tr2 -> f e = true -> P tr1.

Definition loop_returned_at (wk : worker_pc) : bool :=
  match wk with W_set_end | W_put | W_exited => true | _ => false end.

Record trace_inv (s : Sys) (tr : list event) : Prop := {
  t_puts : count_ev is_put tr = if bool_decide (worker s = W_exited) then 1%nat else 0%nat;
  t_gets : count_ev is_get tr =
           if consumed (_ended (self (world s))) (caller s) then 1%nat else 0%nat;
  t_loop : count_ev is_loop_return tr =
           if loop_returned_at (worker s) then 1%nat else 0%nat;
  t_returned : (0 < count_ev is_end_return tr)%nat ->
               consumed (_ended (self (world s))) (caller s) = true;
  t_before_return :
    before is_end_return
           (fun tr1 => count_ev is_put tr1 = 1%nat /\ count_ev is_get tr1 = 1%nat) tr;
  t_before_get :
    before is_get
           (fun tr1 => count_ev is_put tr1 = 1%nat /\ count_ev is_get tr1 = 0%nat) tr;
  t_before_put :
    before is_put
           (fun tr1 => count_ev is_loop_return tr1 = 1%nat /\ count_ev is_put tr1 = 0%nat) tr;
  t_start : count_ev is_set_start tr =
            if bool_decide (worker s = W_set_start) then 0%nat else 1%nat;
  t_before_loop_return :
    before is_loop_return (fun tr1 => count_ev is_set_start tr1 = 1%nat) tr;
  t_before_set_end :
    before is_set_end (fun tr1 => count_ev is_loop_return tr1 = 1%nat) tr
}.

(** ** The callback registry *)

Record Registry := mkRegistry {
  g_callbacks : gmap string pyval;
  g_attempts : list string
}.

Definition registry (w : World) : Registry :=
  {| g_callbacks := _callbacks (self w); g_attempts := import_attempts (proc w) |}.

Definition answers_none (e : event) : Prop :=
  match e with
  | Ev_call CallKeras r => r = Ok PyNone
  | _ => True
  end.

Record keras_inv (p : Process) (s : Sys) (tr : list event) : Prop := {
  k_cache :
    (count_ev is_keras_access tr = 0%nat /\
     _callbacks (self (world s)) !! KERAS = None /\
     import_attempts (proc (world s)) = import_attempts p) \/
    ((1 <= count_ev is_keras_access tr)%nat /\
     _callbacks (self (world s)) !! KERAS = Some (PyBool false) /\
     import_attempts (proc (world s)) = import_attempts p ++ ["keras.callbacks"]);
  k_answers : Forall answers_none tr
}.

(** ** The wall clock *)

(** The wall clock was never set back during the events. *)
Fixpoint clock_steady (tr : list event) : bool :=
  match tr with
  | [] => true
  | Ev_clock before_ after :: tr' => (before_ <=? after) && clock_steady tr'
  | _ :: tr' => clock_steady tr'
  end.

(** The run loop is being executed, has returned or has raised. *)
Definition is_loop_event (e : event) : bool :=
  match e with
  | Ev_loop_running | Ev_worker W_run | Ev_worker_raised _ => true
  | _ => false
  end.

(** Where a run stands with respect to the worker's two readings of the
    clock: before the first, between the two (with the events since the
    first), or after the second (with the events that came between the
    two). *)
Inductive readings :=
| NoReading
| StartRead (since : list event)
| BothRead (between : list event).

Definition readings_step (r : readings) (e : event) : readings :=
  match r with
  | NoReading => if is_set_start e then StartRead [] else NoReading
  | StartRead since => if is_set_end e then BothRead since else StartRead (since ++ [e])
  | BothRead between => BothRead between
  end.

Definition readings_of (tr : list event) : readings :=
  fold_left readings_step tr NoReading.

(** The events after the reading of the start time and before the reading
    of the end time. *)
Definition between_readings (tr : list event) : list event :=
  match readings_of tr with
  | NoReading => []
  | StartRead since => since
  | BothRead between => between
  end.

(** The worker has executed [_set_end_time]. *)
Definition end_recorded_at (wk : worker_pc) : bool :=
  match wk with W_put | W_exited => true | _ => false end.

Record times_inv (s : Sys) (tr : list event) : Prop := {
  tm_readings :
    match worker s with
    | W_set_start => readings_of tr = NoReading
    | W_run | W_set_end | W_died =>
        exists since,
          readings_of tr = StartRead since /\
          (clock_steady since = true ->
           forall t1,
             ExperimentRunner.start_time (_experiment_runner (self (world s))) = Some t1 ->
             t1 <= wall_clock (proc (world s)))
    | W_put | W_exited =>
        exists between,
          readings_of tr = BothRead between /\
          (clock_steady between = true ->
           forall t1 t2,
             ExperimentRunner.start_time (_experiment_runner (self (world s))) = Some t1 ->
             ExperimentRunner.end_time (_experiment_runner (self (world s))) = Some t2 ->
             t1 <= t2)
    end;
  tm_set_end :
    count_ev is_set_end tr = if end_recorded_at (worker s) then 1%nat else 0%nat;
  tm_before_loop :
    before is_loop_event
           (fun tr1 => count_ev is_set_start tr1 = 1%nat /\ count_ev is_set_end tr1 = 0%nat)
           tr
}.

(** ** Sample runs *)

Definition demo_process : Process :=
  {| sys_stdout := Stream 1; sys_stderr := Stream 2;
     keras_import := Raise ImportError; import_attempts := [];
     next_buffer := 0; wall_clock := 100 |}.

Definition quiet_client (history : list client_call) (c : client_call)
  : result pyval * list log_record :=
  (Ok PyNone, []).

(** The worker runs to its end: start time, the loop returns, end time, put. *)
Definition worker_completes : list action :=
  [WorkerStep LoopReturns; WorkerStep (LoopRuns []); WorkerStep LoopReturns;
   WorkerStep LoopReturns; WorkerStep LoopReturns].

(** One call of [end], statement after statement. *)
Definition end_completes : list action :=
  [EndCall; EndStep; EndStep; EndStep; EndStep; EndStep; EndStep; EndStep;
   EndStep; EndStep].

Definition demo_sched : list action :=
  Call (CallMetric "x" (PyInt 1) true) :: Call CallKeras :: Call CallKeras ::
  worker_completes ++ end_completes.

Definition demo_boot (capture_io : bool) : Sys :=
  boot demo_process "demo" None capture_io "run-1".

Definition demo_final (capture_io : bool) : Sys :=
  match run_sched quiet_client demo_sched (demo_boot capture_io) with
  | Some (s, _) => s
  | None => demo_boot capture_io
  end.

Definition demo_trace (capture_io : bool) : list event :=
  match run_sched quiet_client demo_sched (demo_boot capture_io) with
  | Some (_, tr) => tr
  | None => []
  end.

Definition demo_ready : World :=
  on_self (set_done_chan [PyBool true])
          (Experiment__init__ demo_process "demo" None true "run-1").

Definition demo_ended : World :=
  match snd (end_ demo_ready) with
  | Returns w => w
  | _ => demo_ready
  end.

(** ** Statements *)

(** What a step does to the channel, by the statement it completes: the
    worker's [put] appends the token, the [get] of [end] takes the item at
    the front, and no other step touches the channel. *)
Definition channel_op (a : action) (e : event) (q q' : Queue.t) : Prop :=
  match e with
  | Ev_worker W_put => (exists ev, a = WorkerStep ev) /\ q' = Queue.put (PyBool true) q
  | Ev_end E_get => a = EndStep /\ exists item, q = item :: q'
  | _ => q' = q
  end.

(** The effect of a call that only warns: [None] is returned, the delivery
    client has received nothing, the logger has received exactly the
    warning, and nothing else has changed. *)
Definition warns_only (msg : string) (w : World) (out : result pyval * World) : Prop :=
  fst out = Ok PyNone /\
  _hd_client (self (snd out)) = _hd_client (self w) /\
  records (_logger (self (snd out))) = records (_logger (self w)) ++ [WARNING msg] /\
  snd out = on_self (set_logger (warn msg (_logger (self w)))) w.

(** C4, as stated: whenever the caller is about to execute the check of
    [_ended] in [end], it holds [self.lock]. *)
Definition check_is_made_under_the_lock : Prop :=
  forall client_reply p name getter capture_io uuid sched s tr,
    run_sched client_reply sched (boot p name getter capture_io uuid) = Some (s, tr) ->
    caller s = InEnd E_check -> lock (self (world s)) = true.

(** C8, as stated: once the worker has completed, the start time is not
    after the end time. *)
Definition start_never_after_end : Prop :=
  forall client_reply p name getter capture_io uuid sched s tr t1 t2,
    run_sched client_reply sched (boot p name getter capture_io uuid) = Some (s, tr) ->
    worker s = W_exited ->
    ExperimentRunner.get_start_and_end_time (_experiment_runner (self (world s))) =
      (Some t1, Some t2) ->
    t1 <= t2.

(** The worker runs to its end while the wall clock is set back from 100
    to 50 during the run loop. *)
Definition clock_set_back : list action :=
  [WorkerStep LoopReturns; ClockSet 50; WorkerStep LoopReturns;
   WorkerStep LoopReturns; WorkerStep LoopReturns].

(** The wall clock is set back before the first reading and after the
    second, and moves forward between the two. *)
Definition clock_set_back_outside : list action :=
  [ClockSet 50; WorkerStep LoopReturns; ClockSet 70; WorkerStep LoopReturns;
   WorkerStep LoopReturns; WorkerStep LoopReturns; ClockSet 20].

(** ** Further notions: the done flag, the captured streams, the worker's end *)

Definition is_end_called (e : event) : bool :=
  match e with Ev_end_called => true | _ => false end.

Definition is_raised (e : event) : bool :=
  match e with Ev_worker_raised _ => true | _ => false end.

(** [end] has executed [self._experiment_runner.done = True]. *)
Definition done_at (ended : bool) (c : caller_state) : bool :=
  ended && match c with
           | InEnd (E_acquire | E_restore | E_exit_cleanly | E_done) => false
           | _ => true
           end.

(** [end] has executed the restoration of the streams. *)
Definition restored (ended : bool) (c : caller_state) : bool :=
  ended && match c with
           | InEnd (E_acquire | E_restore) => false
           | _ => true
           end.

Record extra_inv (p : Process) (capture_io : bool) (s : Sys) (tr : list event) : Prop := {
  x_done :
    ExperimentRunner.done (_experiment_runner (self (world s))) =
    done_at (_ended (self (world s))) (caller s);
  x_streams :
    capture_io = true ->
    (sys_stdout (proc (world s)), sys_stderr (proc (world s))) =
    if restored (_ended (self (world s))) (caller s)
    then (sys_stdout p, sys_stderr p)
    else (IOBuffer (next_buffer p), IOBuffer (S (next_buffer p)));
  x_called :
    _ended (self (world s)) = true \/ caller s <> Idle ->
    (0 < count_ev is_end_called tr)%nat;
  x_raised :
    count_ev is_raised tr = if bool_decide (worker s = W_died) then 1%nat else 0%nat
}.

(** The number of statements [end] still has to execute from a position. *)
Definition end_rank (pc : end_pc) : nat :=
  match pc with
  | E_check => 9
  | E_set_ended => 8
  | E_acquire => 7
  | E_restore => 6
  | E_exit_cleanly => 5
  | E_done => 4
  | E_release => 3
  | E_get => 2
  | E_return => 1
  end.

(** What an access to [callbacks.keras] answered. *)
Definition answers (r : result pyval) (e : event) : Prop :=
  match e with
  | Ev_call CallKeras r' => r' = r
  | _ => True
  end.

(** The effect of a call that is forwarded: the delivery client's answer
    is returned, the client has received exactly this call more, the logger
    has received what the client has handed it for this call and nothing
    else, and nothing else has changed. *)
Definition forwards
    (client_reply : list client_call -> client_call -> result pyval * list log_record)
    (c : client_call) (w : World) (out : result pyval * World) : Prop :=
  fst out = fst (client_reply (_hd_client (self w)) c) /\
  _hd_client (self (snd out)) = _hd_client (self w) ++ [c] /\
  records (_logger (self (snd out))) =
    records (_logger (self w)) ++ snd (client_reply (_hd_client (self w)) c) /\
  snd out =
    on_self (set_logger (fold_left (fun l r => emit r l)
                                   (snd (client_reply (_hd_client (self w)) c))
                                   (_logger (self w))))
            (on_self (set_hd_client (_hd_client (self w) ++ [c])) w).

(** A delivery client that logs a line for every call it is asked to log. *)
Definition logging_client (history : list client_call) (c : client_call)
  : result pyval * list log_record :=
  (Ok PyNone,
   match c with
   | ClientMetric name _ true => [INFO name]
   | ClientParam name _ true => [INFO name]
   | ClientIter _ true => [INFO "iteration"]
   | _ => []
   end).

(** The state and the events of a sample schedule run from the sample
    process. *)
Definition final_of (capture_io : bool) (sched : list action) : Sys :=
  match run_sched quiet_client sched (demo_boot capture_io) with
  | Some (s, _) => s
  | None => demo_boot capture_io
  end.

Definition trace_of (capture_io : bool) (sched : list action) : list event :=
  match run_sched quiet_client sched (demo_boot capture_io) with
  | Some (_, tr) => tr
  | None => []
  end.

(** The run loop raises; the caller then calls [end] and gets as far as
    the [get]. *)
Definition loop_raises : list action :=
  [WorkerStep LoopReturns; WorkerStep (LoopRaises (Exception "connection lost"));
   EndCall; EndStep; EndStep; EndStep; EndStep; EndStep; EndStep; EndStep].

(** The caller reports and calls [end] before the worker has finished. *)
Definition end_called_early : list action :=
  [Call (CallMetric "x" (PyInt 1) true); WorkerStep LoopReturns;
   EndCall; EndStep; EndStep; EndStep; EndStep; EndStep; EndStep; EndStep].

(** The caller calls [end] if it is not inside it yet, and executes [n]
    statements of it. *)
Definition finish_end (c : caller_state) (n : nat) : list action :=
  match c with
  | Idle => EndCall :: replicate n EndStep
  | InEnd _ => replicate n EndStep
  end.

(** The caller keeps using the experiment after [end]: reports, an
    iteration, a log line and one more [end]. *)
Definition calls_after_end : list action :=
  [Call (CallMetric "y" (PyInt 2) true); Call (CallParam "lr" (PyInt 3) true);
   Call (CallIter (PyInt 4) true); Call (CallLog "bye"); EndCall; EndStep; EndStep].

(** The import of Keras has been attempted on each of the first [n]
    accesses. *)
Definition attempts_after (p : Process) (n : nat) : list string :=
  import_attempts p ++ replicate n "keras.callbacks".

Record keras_ok_inv (p : Process) (s : Sys) (tr : list event) : Prop := {
  ko_cache :
    (count_ev is_keras_access tr = 0%nat /\
     _callbacks (self (world s)) !! KERAS = None /\
     import_attempts (proc (world s)) = import_attempts p) \/
    ((1 <= count_ev is_keras_access tr)%nat /\
     _callbacks (self (world s)) !! KERAS = Some PyKerasCallback /\
     import_attempts (proc (world s)) = import_attempts p ++ ["keras.callbacks"]);
  ko_answers : Forall (answers (Ok PyKerasCallback)) tr
}.

Record keras_broken_inv (p : Process) (e : exn) (s : Sys) (tr : list event) : Prop := {
  kb_cache : _callbacks (self (world s)) !! KERAS = None;
  kb_attempts :
    import_attempts (proc (world s)) = attempts_after p (count_ev is_keras_access tr);
  kb_answers : Forall (answers (Raise e)) tr
}.

(** Keras is installed; the caller takes the adapter twice and fires an
    end-of-epoch event with both entries. *)
Definition keras_process : Process :=
  {| sys_stdout := Stream 1; sys_stderr := Stream 2;
     keras_import := Ok tt; import_attempts := [];
     next_buffer := 0; wall_clock := 100 |}.

Definition epoch_payload : gmap string pyval :=
  {["val_accuracy" := PyFloat 9 (-1); "val_loss" := PyFloat 3 (-1);
    "loss" := PyFloat 4 (-1)]}.

Definition keras_sched : list action :=
  [Call CallKeras; Call CallKeras; Call (CallOnEpochEnd 0 (Some epoch_payload))].

(** Importing Keras fails with something else than [ImportError]. *)
Definition broken_process : Process :=
  {| sys_stdout := Stream 1; sys_stderr := Stream 2;
     keras_import := Raise (Exception "AttributeError"); import_attempts := [];
     next_buffer := 0; wall_clock := 100 |}.

Definition final_from (s0 : Sys) (sched : list action) : Sys :=
  match run_sched quiet_client sched s0 with
  | Some (s, _) => s
  | None => s0
  end.

Definition trace_from (s0 : Sys) (sched : list action) : list event :=
  match run_sched quiet_client sched s0 with
  | Some (_, tr) => tr
  | None => []
  end.

Definition keras_boot : Sys := boot keras_process "demo" None true "run-1".

Definition broken_boot : Sys := boot broken_process "demo" None true "run-1".

(** ** The reports of an end-of-epoch event, said directly *)

(** The report for one key of the payload: none when the key is absent or
    its value is [None]. *)
Definition entry_report (d : gmap string pyval) (k : string)
  : list (string * pyval * bool) :=
  match d !! k with
  | Some v => if is_not_None v then [(k, v, true)] else []
  | None => []
  end.

Definition epoch_reports (logs : option (gmap string pyval))
  : list (string * pyval * bool) :=
  entry_report (default ∅ logs) "val_accuracy" ++ entry_report (default ∅ logs) "val_loss".

Definition report_call (r : string * pyval * bool) : client_call :=
  ClientMetric (fst (fst r)) (snd (fst r)) (snd r).

Definition report_warning (r : string * pyval * bool) : log_record :=
  WARNING (metric_warning (fst (fst r))).

(** What the delivery client hands the logger over a run of calls made
    one after the other, starting from a history. *)
Fixpoint client_emits
    (client_reply : list client_call -> client_call -> result pyval * list log_record)
    (history : list client_call) (calls : list client_call) : list log_record :=
  match calls with
  | [] => []
  | c :: rest =>
      snd (client_reply history c) ++ client_emits client_reply (history ++ [c]) rest
  end.

(** A delivery client that refuses every call. *)
Definition failing_client (history : list client_call) (c : client_call)
  : result pyval * list log_record :=
  (Raise (Exception "connection refused"), [WARNING "connection refused"]).

(** ** What stays fixed in an instance *)

Record Identity := mkIdentity {
  i_model_name : string;
  i_logger_name : string;
  i_logger_run : string;
  i_logger_sink : stream;
  i_hd_out : stream * stream
}.

Definition identity (w : World) : Identity :=
  {| i_model_name := model_name (self w);
     i_logger_name := logger_name (_logger (self w));
     i_logger_run := logger_run (_logger (self w));
     i_logger_sink := logger_sink (_logger (self w));
     i_hd_out := _hd_out (self w) |}.

(** * Properties *)

(** ** Executions: composition and induction from the last step *)

Section Executions.

Variable client_reply : list client_call -> client_call -> result pyval * list log_record.

Lemma run_sched_app sched1 sched2 s :
  run_sched client_reply (sched1 ++ sched2) s =
  match run_sched client_reply sched1 s with
  | Some (s1, tr1) =>
      match run_sched client_reply sched2 s1 with
      | Some (s2, tr2) => Some (s2, tr1 ++ tr2)
      | None => None
      end
  | None => None
  end.
Proof.
  revert s. induction sched1 as [|a sched1 IH]; intros s; simpl.
  - destruct (run_sched client_reply sched2 s) as [[s2 tr2]|]; reflexivity.
  - destruct (sys_step client_reply a s) as [[s' e]|]; [|reflexivity].
    rewrite IH.
    destruct (run_sched client_reply sched1 s') as [[s1 tr1]|]; [|reflexivity].
    destruct (run_sched client_reply sched2 s1) as [[s2 tr2]|]; reflexivity.
Qed.

Lemma run_sched_snoc sched a s0 s tr :
  run_sched client_reply (sched ++ [a]) s0 = Some (s, tr) ->
  exists s1 tr1 e,
    run_sched client_reply sched s0 = Some (s1, tr1) /\
    sys_step client_reply a s1 = Some (s, e) /\
    tr = tr1 ++ [e].
Proof.
  rewrite run_sched_app.
  destruct (run_sched client_reply sched s0) as [[s1 tr1]|]; [|discriminate].
  simpl. destruct (sys_step client_reply a s1) as [[s' e]|] eqn:Hstep; [|discriminate].
  intros H. inversion H; subst.
  exists s1, tr1, e. auto.
Qed.

(** A property of the state and of the events so far that holds at the
    start and is kept by every step holds after every schedule. *)
Lemma run_sched_ind (P : Sys -> list event -> Prop) (s0 : Sys) :
  P s0 [] ->
  (forall s tr a s' e,
      P s tr -> sys_step client_reply a s = Some (s', e) -> P s' (tr ++ [e])) ->
  forall sched s tr, run_sched client_reply sched s0 = Some (s, tr) -> P s tr.
Proof.
  intros Hinit Hstep sched.
  induction sched as [|a sched IH] using rev_ind; intros s tr Hrun.
  - simpl in Hrun. inversion Hrun; subst. exact Hinit.
  - apply run_sched_snoc in Hrun as (s1 & tr1 & e & Hrun & Hs & ->).
    eapply Hstep; eauto.
Qed.

End Executions.

(** ** What the non-blocking calls leave alone *)

Section Frames.

Variable client_reply : list client_call -> client_call -> result pyval * list log_record.

Lemma metric_core name value lg w :
  core (snd (metric client_reply name value lg w)) = core w.
Proof. unfold metric, forward. destruct (_ended (self w)); reflexivity. Qed.

Lemma param_core name value lg w :
  core (snd (param client_reply name value lg w)) = core w.
Proof. unfold param, forward. destruct (_ended (self w)); reflexivity. Qed.

Lemma iter_core n lg w : core (snd (iter client_reply n lg w)) = core w.
Proof. unfold iter, forward. destruct (_ended (self w)); reflexivity. Qed.

Lemma log_core s w : core (snd (log s w)) = core w.
Proof. reflexivity. Qed.

Lemma keras_core w : core (snd (keras w)) = core w.
Proof.
  unfold keras.
  destruct (is_False _); [reflexivity|].
  destruct (negb _); [|reflexivity].
  simpl. destruct (keras_import (proc w)) as [u|[|msg]]; reflexivity.
Qed.

Lemma on_epoch_end_core epoch logs w :
  core (snd (on_epoch_end (metric client_reply) epoch logs w)) = core w.
Proof.
  unfold on_epoch_end.
  set (d := match logs with Some d => _ | None => _ end).
  destruct (is_not_None (dict_get d "val_accuracy")).
  - pose proof (metric_core "val_accuracy" (dict_get d "val_accuracy") true w) as H1.
    destruct (metric client_reply "val_accuracy" _ true w) as [r1 w1].
    simpl in H1. destruct r1 as [a|e]; [|exact H1].
    destruct (is_not_None (dict_get d "val_loss")).
    + pose proof (metric_core "val_loss" (dict_get d "val_loss") true w1) as H2.
      destruct (metric client_reply "val_loss" _ true w1) as [r2 w2].
      simpl in H2. destruct r2; simpl; congruence.
    + exact H1.
  - destruct (is_not_None (dict_get d "val_loss")); [|reflexivity].
    pose proof (metric_core "val_loss" (dict_get d "val_loss") true w) as H2.
    destruct (metric client_reply "val_loss" _ true w) as [r2 w2].
    simpl in H2. destruct r2; simpl; congruence.
Qed.

Lemma do_call_core c w r w' :
  do_call client_reply c w = Some (r, w') -> core w' = core w.
Proof.
  destruct c as [name value lg|name value lg|n lg|msg| |epoch logs]; simpl; intros H.
  - inversion H. rewrite <- (metric_core name value lg w).
    destruct (metric _ _ _ _ _); simpl in *; congruence.
  - inversion H. rewrite <- (param_core name value lg w).
    destruct (param _ _ _ _ _); simpl in *; congruence.
  - inversion H. rewrite <- (iter_core n lg w).
    destruct (iter _ _ _ _); simpl in *; congruence.
  - inversion H. reflexivity.
  - inversion H. rewrite <- (keras_core w).
    destruct (keras _); simpl in *; congruence.
  - destruct (dict_get _ _); try discriminate.
    inversion H. rewrite <- (on_epoch_end_core epoch logs w).
    destruct (on_epoch_end _ _ _ _); simpl in *; congruence.
Qed.

End Frames.

(** ** The invariant of the two threads *)

Section Invariant.

Variable client_reply : list client_call -> client_call -> result pyval * list log_record.

Lemma state_inv_boot p name getter capture_io uuid :
  state_inv p capture_io (boot p name getter capture_io uuid).
Proof.
  unfold state_inv, boot; simpl.
  split; simpl; try reflexivity; try discriminate; auto.
  - intros ->. auto.
  - destruct capture_io; reflexivity.
Qed.

Lemma state_inv_step p capture_io a s s' e :
  state_inv p capture_io s ->
  sys_step client_reply a s = Some (s', e) ->
  state_inv p capture_io s'.
Proof.
  unfold state_inv. destruct s as [w c wk]. intros Hinv Hstep.
  destruct a; simpl in Hstep.
  - (* a call *)
    destruct c; [|discriminate].
    destruct (do_call client_reply c0 w) as [[r w1]|] eqn:Hcall; [|discriminate].
    apply do_call_core in Hcall. inversion Hstep; subst; simpl in *.
    rewrite Hcall. exact Hinv.
  - (* entering end *)
    destruct c; [|discriminate]. inversion Hstep; subst; simpl in *.
    destruct Hinv. split; simpl in *; auto.
  - (* a statement of end *)
    destruct c as [|pc]; [discriminate|].
    destruct Hinv as [Hl He Hc Hcs Hx Hrl Hoo Hoe Hst Hk Ht]. simpl in *.
    destruct pc; simpl in Hstep.
    all: try (destruct (_ended (self w)) eqn:Hended).
    all: try (destruct (lock (self w)) eqn:Hlock; [discriminate|]).
    all: try (destruct (done_chan (self w)) as [|item rest] eqn:Hchan; [discriminate|]).
    all: inversion Hstep; subst; clear Hstep.
    all: try (specialize (He _ eq_refl)).
    all: split; simpl in *; auto; try congruence; try discriminate.
    all: try (intros b Hb; inversion Hb; subst; auto; fail).
    all: try (rewrite ?Hended in *; simpl in *; auto; fail).
    all: try (rewrite ?He in *; simpl in *; rewrite ?andb_true_r, ?andb_false_r in *;
              auto; try congruence; fail).
    + rewrite Hended. simpl. rewrite andb_true_r in Hc.
      destruct (bool_decide (wk = W_exited)); simpl in *; congruence.
    + rewrite andb_true_r in Hc.
      destruct (bool_decide (wk = W_exited)) eqn:Hwk; simpl in *; [|congruence].
      intros _. apply bool_decide_eq_true in Hwk. exact Hwk.
  - (* a statement of the worker *)
    destruct Hinv as [Hl He Hc Hcs Hx Hrl Hoo Hoe Hst Hk Ht]. simpl in *.
    destruct wk; simpl in Hstep; try discriminate.
    all: try (destruct ev).
    all: inversion Hstep; subst; clear Hstep.
    all: split; simpl in *; auto; try discriminate.
    all: try (destruct Ht as [Ht1 Ht2]; split; eauto; fail).
    all: try (intros Hcons; specialize (Hcs Hcons); discriminate).
    all: destruct (consumed _ _) eqn:Hcons; [specialize (Hcs eq_refl); discriminate|].
    all: simpl; rewrite Hc; reflexivity.
  - (* the clock *)
    inversion Hstep; subst; clear Hstep.
    destruct Hinv. split; simpl in *; auto.
Qed.

Lemma state_inv_reachable p name getter capture_io uuid sched s tr :
  run_sched client_reply sched (boot p name getter capture_io uuid) = Some (s, tr) ->
  state_inv p capture_io s.
Proof.
  intros Hrun.
  apply (run_sched_ind client_reply (fun s _ => state_inv p capture_io s)
           (boot p name getter capture_io uuid)) with (sched := sched) (tr := tr);
    [apply state_inv_boot | | exact Hrun].
  intros s1 tr1 a s2 e Hinv Hstep. eapply state_inv_step; eauto.
Qed.

End Invariant.

(** ** Counting events *)

Lemma count_ev_app f tr1 tr2 :
  count_ev f (tr1 ++ tr2) = (count_ev f tr1 + count_ev f tr2)%nat.
Proof. induction tr1 as [|e tr1 IH]; simpl; [reflexivity|]. rewrite IH. lia. Qed.

Lemma count_ev_snoc f tr e :
  count_ev f (tr ++ [e]) = (count_ev f tr + if f e then 1 else 0)%nat.
Proof. rewrite count_ev_app. simpl. lia. Qed.

Lemma before_nil f P : before f P [].
Proof. intros tr1 e tr2 H. destruct tr1; discriminate. Qed.

Lemma before_snoc f P tr e :
  before f P tr -> (f e = true -> P tr) -> before f P (tr ++ [e]).
Proof.
  intros Hb He tr1 x tr2 Heq Hx.
  destruct tr2 as [|y tr2 _] using rev_ind.
  - apply app_inj_tail in Heq as [-> ->]. auto.
  - change (tr ++ [e] = tr1 ++ (x :: tr2) ++ [y]) in Heq.
    rewrite (app_assoc tr1) in Heq.
    apply app_inj_tail in Heq as [-> ->]. eapply Hb; eauto.
Qed.

(** ** The handshake, seen on the events *)

Section Handshake.

Variable client_reply : list client_call -> client_call -> result pyval * list log_record.

Lemma trace_inv_step p capture_io a s s' e tr :
  state_inv p capture_io s ->
  trace_inv s tr ->
  sys_step client_reply a s = Some (s', e) ->
  trace_inv s' (tr ++ [e]).
Proof.
  intros Hst [Hp Hg Hl Hr Hbr Hbg Hbp Hs Hblr Hbse] Hstep.
  pose proof (state_inv_step client_reply _ _ _ _ _ _ Hst Hstep) as Hst'.
  destruct s as [w c wk]. unfold state_inv in *. simpl in *.
  destruct a; simpl in Hstep.
  - destruct c; [|discriminate].
    destruct (do_call client_reply c0 w) as [[r w1]|] eqn:Hcall; [|discriminate].
    apply do_call_core in Hcall. inversion Hstep; subst; clear Hstep. simpl in *.
    assert (He : _ended (self w1) = _ended (self w))
      by (change (c_ended (core w1) = c_ended (core w)); rewrite Hcall; reflexivity).
    split; simpl; rewrite ?count_ev_snoc, ?He; simpl; rewrite ?Nat.add_0_r; auto;
      apply before_snoc; auto; discriminate.
  - destruct c; [|discriminate]. inversion Hstep; subst; clear Hstep. simpl in *.
    split; simpl; rewrite ?count_ev_snoc; simpl; rewrite ?Nat.add_0_r; auto;
      apply before_snoc; auto; discriminate.
  - destruct c as [|pc]; [discriminate|].
    destruct Hst as [Hl0 He0 Hc0 Hcs0 _ _ _ _ _ _ _]. clear Hst'. simpl in *.
    destruct pc; simpl in Hstep.
    all: try (destruct (_ended (self w)) eqn:Hended).
    all: try (destruct (lock (self w)); [discriminate|]).
    all: try (destruct (done_chan (self w)) eqn:Hchan; [discriminate|]).
    all: inversion Hstep; subst; clear Hstep.
    all: try (specialize (He0 _ eq_refl)).
    all: simpl in *; rewrite ?Hended, ?He0 in *; simpl in *.
    all: split; simpl; rewrite ?count_ev_snoc, ?Hended, ?He0; simpl;
      rewrite ?Nat.add_0_r; auto; try lia; try discriminate.
    all: try (apply before_snoc; auto; discriminate).
    + apply before_snoc; auto. intros _.
      destruct (bool_decide (wk = W_exited)); simpl in *; [auto | discriminate].
    + apply before_snoc; auto. intros _.
      rewrite (Hcs0 eq_refl) in Hp. auto.
  - destruct Hst as [_ _ Hc0 Hcs0 _ _ _ _ _ _ _]. clear Hst'. simpl in *.
    destruct wk; simpl in Hstep; try discriminate.
    all: try (destruct ev).
    all: inversion Hstep; subst; clear Hstep.
    all: simpl in *.
    all: split; simpl; rewrite ?count_ev_snoc; simpl;
      rewrite ?Nat.add_0_r; auto; try lia; try discriminate.
    all: try (apply before_snoc; auto; discriminate).
  - inversion Hstep; subst; clear Hstep. simpl in *.
    split; simpl; rewrite ?count_ev_snoc; simpl; rewrite ?Nat.add_0_r; auto;
      apply before_snoc; auto; discriminate.
Qed.

Lemma trace_inv_boot p name getter capture_io uuid :
  trace_inv (boot p name getter capture_io uuid) [].
Proof. split; simpl; auto; try lia; apply before_nil. Qed.

Lemma invariants_reachable p name getter capture_io uuid sched s tr :
  run_sched client_reply sched (boot p name getter capture_io uuid) = Some (s, tr) ->
  state_inv p capture_io s /\ trace_inv s tr.
Proof.
  intros Hrun.
  apply (run_sched_ind client_reply
           (fun s tr => state_inv p capture_io s /\ trace_inv s tr)
           (boot p name getter capture_io uuid)) with (sched := sched);
    [split; [apply state_inv_boot | apply trace_inv_boot] | | exact Hrun].
  intros s1 tr1 a s2 e [Hst Htr] Hstep. split.
  - eapply state_inv_step; eauto.
  - eapply trace_inv_step; eauto.
Qed.

End Handshake.

(** ** The callback registry when Keras is not installed *)

Section Registry.

Variable client_reply : list client_call -> client_call -> result pyval * list log_record.

Lemma metric_registry name value lg w :
  registry (snd (metric client_reply name value lg w)) = registry w.
Proof. unfold metric, forward. destruct (_ended (self w)); reflexivity. Qed.

Lemma param_registry name value lg w :
  registry (snd (param client_reply name value lg w)) = registry w.
Proof. unfold param, forward. destruct (_ended (self w)); reflexivity. Qed.

Lemma iter_registry n lg w : registry (snd (iter client_reply n lg w)) = registry w.
Proof. unfold iter, forward. destruct (_ended (self w)); reflexivity. Qed.

Lemma end_step_registry pc w :
  match end_step pc w with
  | Goto _ w' | Return w' | Throw _ w' => registry w' = registry w
  | Blocked => True
  end.
Proof.
  destruct pc; simpl; try reflexivity.
  - destruct (_ended (self w)); reflexivity.
  - destruct (lock (self w)); [exact I | reflexivity].
  - destruct (done_chan (self w)); [exact I | reflexivity].
Qed.

Lemma worker_step_registry ev pc w pc' w' :
  worker_step ev pc w = Some (pc', w') -> registry w' = registry w.
Proof.
  destruct pc; simpl; try discriminate; try (intros H; inversion H; reflexivity).
  destruct ev; intros H; inversion H; reflexivity.
Qed.

(** The accessor when the import fails with [ImportError]: the first
    access attempts the import and caches [False]; later ones answer
    from the cache and change nothing. *)
Lemma keras_first_access w :
  keras_import (proc w) = Raise ImportError ->
  _callbacks (self w) !! KERAS = None ->
  keras w =
    (Ok PyNone,
     on_self (set_callbacks (<[KERAS := PyBool false]> (_callbacks (self w))))
             (on_proc (record_import "keras.callbacks") w)).
Proof.
  intros Hk Hc. unfold keras, dict_get. rewrite Hc. simpl. rewrite Hk. reflexivity.
Qed.

Lemma keras_cached_unavailable w :
  _callbacks (self w) !! KERAS = Some (PyBool false) ->
  keras w = (Ok PyNone, w).
Proof. intros Hc. unfold keras, dict_get. rewrite Hc. reflexivity. Qed.

Lemma keras_inv_step p capture_io a s s' e tr :
  keras_import p = Raise ImportError ->
  state_inv p capture_io s ->
  keras_inv p s tr ->
  sys_step client_reply a s = Some (s', e) ->
  keras_inv p s' (tr ++ [e]).
Proof.
  intros Hmissing Hst [Hc Ha] Hstep.
  destruct s as [w c wk]. unfold state_inv in Hst. simpl in *.
  assert (Hframe : forall s1 e1, registry (world s1) = registry w ->
            is_keras_access e1 = false ->
            keras_inv p s1 (tr ++ [e1])).
  { intros s1 e1 Hreg He. split; simpl.
    - rewrite count_ev_snoc, He, Nat.add_0_r.
      change (_callbacks (self (world s1))) with (g_callbacks (registry (world s1))).
      change (import_attempts (proc (world s1))) with (g_attempts (registry (world s1))).
      rewrite Hreg. exact Hc.
    - apply Forall_app; split; [exact Ha|]. constructor; [|constructor].
      destruct e1; simpl; auto. destruct c0; simpl in *; auto. discriminate. }
  destruct a; simpl in Hstep.
  - destruct c; [|discriminate].
    destruct c0 as [name value lg|name value lg|n lg|msg| |epoch logs]; simpl in Hstep.
    + pose proof (metric_registry name value lg w) as Hreg.
      destruct (metric _ _ _ _ _) as [r w1]. inversion Hstep; subst; clear Hstep.
      apply Hframe; [exact Hreg | reflexivity].
    + pose proof (param_registry name value lg w) as Hreg.
      destruct (param _ _ _ _ _) as [r w1]. inversion Hstep; subst; clear Hstep.
      apply Hframe; [exact Hreg | reflexivity].
    + pose proof (iter_registry n lg w) as Hreg.
      destruct (iter _ _ _ _) as [r w1]. inversion Hstep; subst; clear Hstep.
      apply Hframe; [exact Hreg | reflexivity].
    + inversion Hstep; subst; clear Hstep.
      apply Hframe; reflexivity.
    + assert (Hk : keras_import (proc w) = Raise ImportError).
      { destruct Hst as [_ _ _ _ _ _ _ _ _ Hk _]. simpl in Hk. congruence. }
      destruct Hc as [(Hn & Hcache & Hatt) | (Hn & Hcache & Hatt)].
      * rewrite (keras_first_access w Hk Hcache) in Hstep.
        inversion Hstep; subst; clear Hstep. split; simpl.
        -- right. rewrite count_ev_snoc. simpl. split; [lia|]. split.
           ++ apply lookup_insert_eq.
           ++ rewrite Hatt. reflexivity.
        -- apply Forall_app; split; [exact Ha|]. constructor; [reflexivity|constructor].
      * rewrite (keras_cached_unavailable w Hcache) in Hstep.
        inversion Hstep; subst; clear Hstep. split; simpl.
        -- right. rewrite count_ev_snoc. simpl. split; [lia|]. auto.
        -- apply Forall_app; split; [exact Ha|]. constructor; [reflexivity|constructor].
    + exfalso. unfold dict_get in Hstep.
      destruct Hc as [(_ & Hcache & _) | (_ & Hcache & _)];
        rewrite Hcache in Hstep; discriminate.
  - destruct c; [|discriminate]. inversion Hstep; subst; clear Hstep.
    apply Hframe; reflexivity.
  - destruct c as [|pc]; [discriminate|].
    pose proof (end_step_registry pc w) as Hreg.
    destruct (end_step pc w); inversion Hstep; subst; clear Hstep;
      apply Hframe; auto.
  - destruct (worker_step ev wk w) as [[pc' w']|] eqn:Hw; [|discriminate].
    inversion Hstep; subst; clear Hstep.
    apply Hframe; [exact (worker_step_registry _ _ _ _ _ Hw)|].
    destruct wk, ev; reflexivity.
  - inversion Hstep; subst; clear Hstep.
    apply Hframe; reflexivity.
Qed.

Lemma keras_inv_reachable p name getter capture_io uuid sched s tr :
  keras_import p = Raise ImportError ->
  run_sched client_reply sched (boot p name getter capture_io uuid) = Some (s, tr) ->
  keras_inv p s tr.
Proof.
  intros Hmissing Hrun.
  cut (state_inv p capture_io s /\ keras_inv p s tr); [tauto|].
  apply (run_sched_ind client_reply
           (fun s tr => state_inv p capture_io s /\ keras_inv p s tr)
           (boot p name getter capture_io uuid)) with (sched := sched);
    [split; [apply state_inv_boot|] | | exact Hrun].
  - split; simpl; [|constructor]. left. split; [reflexivity|].
    split; [apply lookup_empty|]. destruct capture_io; reflexivity.
  - intros s1 tr1 a s2 e [Hst Hk] Hstep. split.
    + eapply state_inv_step; eauto.
    + eapply keras_inv_step; eauto.
Qed.

End Registry.

(** ** The two timestamps and the wall clock *)

Lemma clock_steady_app tr1 tr2 :
  clock_steady (tr1 ++ tr2) = clock_steady tr1 && clock_steady tr2.
Proof.
  induction tr1 as [|e tr1 IH]; simpl; [reflexivity|].
  destruct e; auto. rewrite IH. apply andb_assoc.
Qed.

Lemma readings_of_snoc tr e :
  readings_of (tr ++ [e]) = readings_step (readings_of tr) e.
Proof. unfold readings_of. rewrite fold_left_app. reflexivity. Qed.

Section Clock.

Variable client_reply : list client_call -> client_call -> result pyval * list log_record.

Lemma times_inv_boot p name getter capture_io uuid :
  times_inv (boot p name getter capture_io uuid) [].
Proof. split; simpl; auto. apply before_nil. Qed.

Lemma times_inv_step p capture_io a s s' e tr :
  state_inv p capture_io s ->
  trace_inv s tr ->
  times_inv s tr ->
  sys_step client_reply a s = Some (s', e) ->
  times_inv s' (tr ++ [e]).
Proof.
  intros Hst Htr [Hrd Hse Hbl] Hstep.
  pose proof (t_start _ _ Htr) as Hss.
  pose proof (inv_times _ _ _ _ _ Hst) as Ht.
  destruct s as [w c wk]. simpl in *.
  assert (Hquiet : forall w',
             ExperimentRunner.start_time (_experiment_runner (self w')) =
               ExperimentRunner.start_time (_experiment_runner (self w)) ->
             ExperimentRunner.end_time (_experiment_runner (self w')) =
               ExperimentRunner.end_time (_experiment_runner (self w)) ->
             wall_clock (proc w') = wall_clock (proc w) ->
             is_set_start e = false -> is_set_end e = false -> is_loop_event e = false ->
             clock_steady [e] = true ->
             times_inv {| world := w'; caller := caller s'; worker := wk |} (tr ++ [e])).
  { intros w' Hr1 Hr2 Hcl H1 H2 H3 H4. split; simpl.
    - rewrite readings_of_snoc, Hr1, Hr2, Hcl.
      destruct wk; simpl in Hrd |- *.
      + rewrite Hrd. simpl. rewrite H1. reflexivity.
      + destruct Hrd as (since & -> & Hle). simpl. rewrite H2.
        eexists; split; [reflexivity|]. rewrite clock_steady_app, H4, andb_true_r. exact Hle.
      + destruct Hrd as (since & -> & Hle). simpl. rewrite H2.
        eexists; split; [reflexivity|]. rewrite clock_steady_app, H4, andb_true_r. exact Hle.
      + destruct Hrd as (between & -> & Hle). simpl. eauto.
      + destruct Hrd as (between & -> & Hle). simpl. eauto.
      + destruct Hrd as (since & -> & Hle). simpl. rewrite H2.
        eexists; split; [reflexivity|]. rewrite clock_steady_app, H4, andb_true_r. exact Hle.
    - rewrite count_ev_snoc, H2, Nat.add_0_r. exact Hse.
    - apply before_snoc; [exact Hbl|]. rewrite H3. discriminate. }
  destruct a; simpl in Hstep.
  - destruct c; [|discriminate].
    destruct (do_call client_reply c0 w) as [[r w1]|] eqn:Hcall; [|discriminate].
    apply do_call_core in Hcall. inversion Hstep; subst; clear Hstep.
    assert (Hrun : _experiment_runner (self w1) = _experiment_runner (self w))
      by (change (c_runner (core w1) = c_runner (core w)); rewrite Hcall; reflexivity).
    apply Hquiet; try reflexivity; try (rewrite Hrun; reflexivity).
    change (c_clock (core w1) = c_clock (core w)). rewrite Hcall. reflexivity.
  - destruct c; [|discriminate]. inversion Hstep; subst; clear Hstep.
    apply Hquiet; reflexivity.
  - destruct c as [|pc]; [discriminate|].
    destruct pc; simpl in Hstep.
    all: try (destruct (_ended (self w))).
    all: try (destruct (lock (self w)); [discriminate|]).
    all: try (destruct (done_chan (self w)); [discriminate|]).
    all: inversion Hstep; subst; clear Hstep.
    all: apply Hquiet; reflexivity.
  - clear Hquiet.
    destruct wk; simpl in Hstep; try discriminate.
    all: try (destruct ev).
    all: inversion Hstep; subst; clear Hstep.
    all: simpl in *.
    all: split; simpl; rewrite ?readings_of_snoc, ?count_ev_snoc; simpl;
      rewrite ?Nat.add_0_r; auto.
    all: try (apply before_snoc; [exact Hbl|]; simpl; try discriminate; intros _; lia).
    all: try (rewrite Hse; reflexivity).
    all: try (rewrite Hrd; simpl; eexists; split; [reflexivity|];
              intros _ t1 H; inversion H; unfold datetime_now; lia).
    all: destruct Hrd as (evs & Hr & Hle); rewrite Hr; simpl;
      eexists; (split; [reflexivity|]).
    all: try (rewrite clock_steady_app; simpl; rewrite andb_true_r; exact Hle).
    all: try exact Hle.
    all: intros Hsteady t1 t2 H1 H2; inversion H2; subst; unfold datetime_now;
      apply Hle; auto.
  - inversion Hstep; subst; clear Hstep. simpl in *.
    split; simpl; rewrite ?readings_of_snoc, ?count_ev_snoc; simpl;
      rewrite ?Nat.add_0_r; auto.
    + destruct wk; simpl in *.
      * rewrite Hrd. reflexivity.
      * destruct Hrd as (evs & Hr & Hle). rewrite Hr. simpl.
        eexists; split; [reflexivity|]. rewrite clock_steady_app. simpl.
        rewrite andb_true_r. intros Hs t1 H1. apply andb_true_iff in Hs as [Hs Hb].
        apply Z.leb_le in Hb. specialize (Hle Hs t1 H1). lia.
      * destruct Hrd as (evs & Hr & Hle). rewrite Hr. simpl.
        eexists; split; [reflexivity|]. rewrite clock_steady_app. simpl.
        rewrite andb_true_r. intros Hs t1 H1. apply andb_true_iff in Hs as [Hs Hb].
        apply Z.leb_le in Hb. specialize (Hle Hs t1 H1). lia.
      * destruct Hrd as (evs & Hr & Hle). rewrite Hr. simpl. eauto.
      * destruct Hrd as (evs & Hr & Hle). rewrite Hr. simpl. eauto.
      * destruct Hrd as (evs & Hr & Hle). rewrite Hr. simpl.
        eexists; split; [reflexivity|]. rewrite clock_steady_app. simpl.
        rewrite andb_true_r. intros Hs t1 H1. apply andb_true_iff in Hs as [Hs Hb].
        apply Z.leb_le in Hb. specialize (Hle Hs t1 H1). lia.
    + apply before_snoc; [exact Hbl|]. discriminate.
Qed.

Lemma times_inv_reachable p name getter capture_io uuid sched s tr :
  run_sched client_reply sched (boot p name getter capture_io uuid) = Some (s, tr) ->
  state_inv p capture_io s /\ trace_inv s tr /\ times_inv s tr.
Proof.
  intros Hrun.
  apply (run_sched_ind client_reply
           (fun s tr => state_inv p capture_io s /\ trace_inv s tr /\ times_inv s tr)
           (boot p name getter capture_io uuid)) with (sched := sched);
    [split_and!; [apply state_inv_boot | apply trace_inv_boot | apply times_inv_boot]
    | | exact Hrun].
  intros s1 tr1 a s2 e (Hst & Htr & Htm) Hstep. split_and!.
  - eapply state_inv_step; eauto.
  - eapply trace_inv_step; eauto.
  - eapply times_inv_step; eauto.
Qed.

End Clock.

(** ** The claims *)

Lemma end_step_return pc w w' :
  end_step pc w = Return w' -> pc = E_return /\ w' = w.
Proof.
  destruct pc; simpl; try discriminate.
  - destruct (_ended (self w)); discriminate.
  - destruct (lock (self w)); discriminate.
  - destruct (done_chan (self w)); discriminate.
  - intros H. inversion H. auto.
Qed.

Lemma end_step_no_throw pc w e w' : end_step pc w <> Throw e w'.
Proof.
  destruct pc; simpl; try discriminate.
  - destruct (_ended (self w)); discriminate.
  - destruct (lock (self w)); discriminate.
  - destruct (done_chan (self w)); discriminate.
Qed.

Section Channel.

Variable client_reply : list client_call -> client_call -> result pyval * list log_record.

Lemma step_channel a s s' e :
  sys_step client_reply a s = Some (s', e) ->
  channel_op a e (done_chan (self (world s))) (done_chan (self (world s'))).
Proof.
  intros Hstep. destruct s as [w c wk]. simpl in *.
  destruct a; simpl in Hstep.
  - destruct c; [|discriminate].
    destruct (do_call client_reply c0 w) as [[r w1]|] eqn:Hcall; [|discriminate].
    apply do_call_core in Hcall. inversion Hstep; subst. simpl.
    change (c_chan (core w1) = c_chan (core w)). rewrite Hcall. reflexivity.
  - destruct c; [|discriminate]. inversion Hstep; subst. reflexivity.
  - destruct c as [|pc]; [discriminate|].
    destruct pc; simpl in Hstep.
    all: try (destruct (_ended (self w))).
    all: try (destruct (lock (self w)); [discriminate|]).
    all: try (destruct (done_chan (self w)) as [|item rest] eqn:Hq; [discriminate|]).
    all: inversion Hstep; subst; simpl; try reflexivity.
    all: split; [reflexivity|]; exists item; reflexivity.
  - destruct wk; simpl in Hstep; try discriminate.
    all: try (destruct ev).
    all: inversion Hstep; subst; simpl; try reflexivity.
    all: split; [eexists; reflexivity | reflexivity].
  - inversion Hstep; subst. reflexivity.
Qed.

(** The event of a step is the return of [end] exactly when the step brings
    the caller from inside [end] back to its own code. *)
Lemma step_returns a s s' e :
  sys_step client_reply a s = Some (s', e) ->
  (is_end_return e = true <-> caller s <> Idle /\ caller s' = Idle).
Proof.
  intros Hstep. destruct s as [w c wk]. simpl in *.
  destruct a; simpl in Hstep.
  - destruct c; [|discriminate].
    destruct (do_call client_reply c0 w) as [[r w1]|]; [|discriminate].
    inversion Hstep; subst. simpl. split; [discriminate | intros [H _]; contradiction].
  - destruct c; [|discriminate]. inversion Hstep; subst. simpl.
    split; [discriminate | intros [H _]; contradiction].
  - destruct c as [|pc]; [discriminate|].
    destruct pc; simpl in Hstep.
    all: try (destruct (_ended (self w))).
    all: try (destruct (lock (self w)); [discriminate|]).
    all: try (destruct (done_chan (self w)); [discriminate|]).
    all: inversion Hstep; subst; simpl.
    all: split; try discriminate; try (intros [_ H]; discriminate); auto.
  - destruct (worker_step ev wk w) as [[pc' w']|]; [|discriminate].
    inversion Hstep; subst. simpl.
    split; [destruct wk, ev; discriminate|].
    intros [H1 H2]. contradiction.
  - inversion Hstep; subst. simpl.
    split; [discriminate | intros [H1 H2]; contradiction].
Qed.

End Channel.

(** C1. [end] does not come back to its caller before the worker has put
    its token on [done_chan] and [end] has taken it.  In every run: the
    token is put at most once and taken at most once, never taken before it
    is put, and the channel holds what has been put and not yet taken; a put
    event is the worker appending the token, a take event is the [get] of
    [end] removing the item at the front, and no other step touches the
    channel; the put is the worker's last statement, after
    [self._hd.run()] has returned; whenever a step brings the caller from
    inside [end] back to its own code, that step is the return statement,
    the token has been put once and taken once before it, the worker has
    exited, the channel is empty and [_ended] is set; and the take has no
    timeout: while the channel is empty, the caller inside [end] cannot
    move, and [end] never leaves by an exception. *)
Theorem end_waits_for_the_completion_token :
  forall client_reply p name getter capture_io uuid sched s tr,
    run_sched client_reply sched (boot p name getter capture_io uuid) = Some (s, tr) ->
    (count_ev is_put tr <= 1)%nat /\
    (count_ev is_get tr <= count_ev is_put tr)%nat /\
    before is_end_return
      (fun tr1 => count_ev is_put tr1 = 1%nat /\ count_ev is_get tr1 = 1%nat) tr /\
    before is_get
      (fun tr1 => count_ev is_put tr1 = 1%nat /\ count_ev is_get tr1 = 0%nat) tr /\
    before is_put
      (fun tr1 => count_ev is_loop_return tr1 = 1%nat /\ count_ev is_put tr1 = 0%nat) tr /\
    (caller s = InEnd E_get -> done_chan (self (world s)) = [] ->
     sys_step client_reply EndStep s = None) /\
    (forall pc, caller s = InEnd pc ->
                forall e w', end_step pc (world s) <> Throw e w') /\
    (length (done_chan (self (world s))) + count_ev is_get tr = count_ev is_put tr)%nat /\
    (forall a s' e,
        sys_step client_reply a s = Some (s', e) ->
        channel_op a e (done_chan (self (world s))) (done_chan (self (world s'))) /\
        (is_end_return e = true <-> caller s <> Idle /\ caller s' = Idle)) /\
    (forall a s' e,
        sys_step client_reply a s = Some (s', e) ->
        caller s <> Idle -> caller s' = Idle ->
        a = EndStep /\ e = Ev_end E_return /\
        count_ev is_put tr = 1%nat /\ count_ev is_get tr = 1%nat /\
        worker s = W_exited /\
        done_chan (self (world s')) = [] /\
        _ended (self (world s')) = true).
Proof.
  intros client_reply p name getter capture_io uuid sched s tr Hrun.
  destruct (invariants_reachable _ _ _ _ _ _ _ _ _ Hrun) as [Hst Htr].
  destruct Htr as [Hp Hg Hl Hr Hbr Hbg Hbp Hs Hblr Hbse].
  destruct Hst as [_ He Hch Hcs _ _ _ _ _ _ _]. simpl in Hcs, He, Hch.
  split_and!; auto.
  - rewrite Hp. destruct (bool_decide _); lia.
  - rewrite Hp, Hg. destruct (consumed _ _) eqn:Hc; [|lia].
    rewrite (Hcs eq_refl). simpl. lia.
  - intros Hc Hq. unfold sys_step. rewrite Hc. simpl. rewrite Hq. reflexivity.
  - intros pc _ e w'. destruct pc; simpl; try discriminate.
    + destruct (_ended _); discriminate.
    + destruct (lock _); discriminate.
    + destruct (done_chan _); discriminate.
  - rewrite Hp, Hg, Hch.
    destruct (consumed _ _) eqn:Hc.
    + rewrite (Hcs eq_refl). simpl. reflexivity.
    + rewrite andb_true_r. destruct (bool_decide _); reflexivity.
  - intros a s' e Hstep. split.
    + eapply step_channel; eauto.
    + eapply step_returns; eauto.
  - intros a s' e Hstep Hin Hidle.
    destruct s as [w c wk]. simpl in *.
    destruct a; simpl in Hstep.
    + destruct c; [contradiction | discriminate].
    + destruct c; [contradiction | discriminate].
    + destruct c as [|pc]; [discriminate|].
      destruct (end_step pc w) as [pc1 w1|w1|x w1|] eqn:Hes; [| | |discriminate].
      * inversion Hstep; subst. discriminate.
      * apply end_step_return in Hes as [-> ->].
        inversion Hstep; subst. simpl.
        specialize (He true eq_refl). rewrite He in *. simpl in *.
        specialize (Hcs eq_refl). subst wk. simpl in *.
        split_and!; auto.
      * exfalso. eapply end_step_no_throw; eauto.
    + destruct (worker_step ev wk w) as [[pc' w']|]; [|discriminate].
      inversion Hstep; subst. simpl in Hidle. contradiction.
    + inversion Hstep; subst. simpl in Hidle. contradiction.
Qed.

(** The sample run up to the last statement of [end]: the caller is at the
    return. *)
Lemma end_waits_for_the_completion_token_witness :
  run_sched quiet_client (removelast demo_sched) (demo_boot true) =
    Some (final_of true (removelast demo_sched), trace_of true (removelast demo_sched)) /\
  sys_step quiet_client EndStep (final_of true (removelast demo_sched)) =
    Some (demo_final true, Ev_end E_return) /\
  caller (final_of true (removelast demo_sched)) <> Idle /\
  caller (demo_final true) = Idle /\
  count_ev is_put (trace_of true (removelast demo_sched)) = 1%nat /\
  count_ev is_get (trace_of true (removelast demo_sched)) = 1%nat /\
  worker (final_of true (removelast demo_sched)) = W_exited.
Proof.
  assert (Hstep : sys_step quiet_client EndStep (final_of true (removelast demo_sched)) =
                  Some (demo_final true, Ev_end E_return)) by (vm_compute; reflexivity).
  assert (Hin : caller (final_of true (removelast demo_sched)) <> Idle)
    by (vm_compute; discriminate).
  assert (Hidle : caller (demo_final true) = Idle) by (vm_compute; reflexivity).
  split; [vm_compute; reflexivity|]. split; [exact Hstep|]. split; [exact Hin|].
  split; [exact Hidle|].
  pose proof (end_waits_for_the_completion_token quiet_client demo_process "demo" None
                true "run-1" (removelast demo_sched)
                (final_of true (removelast demo_sched))
                (trace_of true (removelast demo_sched))
                ltac:(vm_compute; reflexivity))
    as (_ & _ & _ & _ & _ & _ & _ & _ & _ & Hback).
  destruct (Hback EndStep (demo_final true) (Ev_end E_return) Hstep Hin Hidle)
    as (_ & _ & Hput & Hget & Hwk & _).
  split; [exact Hput|]. split; [exact Hget | exact Hwk].
Defined.

(** What one call of [end] amounts to, for a caller that is alone. *)
Lemma end_unfold w :
  end_ w =
  if _ended (self w) then ([E_check; E_return], Returns w)
  else
    let w1 := on_self (set_ended true) w in
    if lock (self w) then ([E_check; E_set_ended], WaitsAt E_acquire w1)
    else
      let w2 := on_self (set_lock true) w1 in
      let w3 := on_proc (set_sys_streams (_old_out (self w)) (_old_err (self w))) w2 in
      let w4 := on_self (set_runner (ExperimentRunner.set_exit_cleanly true
                                       (_experiment_runner (self w)))) w3 in
      let w5 := on_self (set_runner (ExperimentRunner.set_done true
                                       (_experiment_runner (self w4)))) w4 in
      let w6 := on_self (set_lock false) w5 in
      match done_chan (self w) with
      | [] => ([E_check; E_set_ended; E_acquire; E_restore; E_exit_cleanly; E_done;
                E_release], WaitsAt E_get w6)
      | _ :: rest =>
          ([E_check; E_set_ended; E_acquire; E_restore; E_exit_cleanly; E_done;
            E_release; E_get; E_return], Returns (on_self (set_done_chan rest) w6))
      end.
Proof.
  unfold end_. simpl.
  destruct (_ended (self w)); [reflexivity|]. simpl.
  destruct (lock (self w)); [reflexivity|]. simpl.
  destruct (done_chan (self w)); reflexivity.
Qed.

Lemma end_returns_ended w tr w1 :
  end_ w = (tr, Returns w1) -> _ended (self w1) = true.
Proof.
  rewrite end_unfold.
  destruct (_ended (self w)) eqn:He.
  - intros H. inversion H; subst. exact He.
  - simpl. destruct (lock (self w)); [discriminate|].
    destruct (done_chan (self w)); [discriminate|].
    intros H. inversion H; subst. reflexivity.
Qed.

(** C2. A second call of [end] right after one that has returned leaves
    the state as it is: it executes the check and the return and nothing
    else (no restoration of the streams, no write to the runner signal, no
    [get] on the channel), whatever the worker is doing. *)
Theorem end_twice_is_end_once :
  forall w tr w1,
    end_ w = (tr, Returns w1) ->
    end_ w1 = ([E_check; E_return], Returns w1) /\
    forall client_reply wk,
      run_sched client_reply [EndCall; EndStep; EndStep]
                {| world := w1; caller := Idle; worker := wk |} =
      Some ({| world := w1; caller := Idle; worker := wk |},
            [Ev_end_called; Ev_end E_check; Ev_end E_return]).
Proof.
  intros w tr w1 H. apply end_returns_ended in H. split.
  - rewrite end_unfold, H. reflexivity.
  - intros client_reply wk. simpl. rewrite H. reflexivity.
Qed.

Lemma end_twice_is_end_once_witness :
  end_ demo_ready = (fst (end_ demo_ready), Returns demo_ended) /\
  end_ demo_ended = ([E_check; E_return], Returns demo_ended).
Proof.
  assert (H : end_ demo_ready = (fst (end_ demo_ready), Returns demo_ended))
    by (vm_compute; reflexivity).
  split; [exact H|].
  exact (proj1 (end_twice_is_end_once demo_ready _ demo_ended H)).
Defined.

Lemma ended_after_return client_reply p name getter capture_io uuid sched s tr :
  run_sched client_reply sched (boot p name getter capture_io uuid) = Some (s, tr) ->
  (0 < count_ev is_end_return tr)%nat ->
  _ended (self (world s)) = true.
Proof.
  intros Hrun Hret.
  destruct (invariants_reachable _ _ _ _ _ _ _ _ _ Hrun) as [_ Htr].
  pose proof (t_returned _ _ Htr Hret) as Hc.
  unfold consumed in Hc. apply andb_true_iff in Hc. tauto.
Qed.

(** C3. Once [end] has returned, every call of [metric], [param] or [iter]
    returns [None] without raising, forwards nothing to the delivery client
    and hands exactly one warning to the logger. *)
Theorem calls_after_end_only_warn :
  forall client_reply p name getter capture_io uuid sched s tr,
    run_sched client_reply sched (boot p name getter capture_io uuid) = Some (s, tr) ->
    (0 < count_ev is_end_return tr)%nat ->
    forall n value lg,
      warns_only (metric_warning n) (world s) (metric client_reply n value lg (world s)) /\
      warns_only (param_warning n) (world s) (param client_reply n value lg (world s)) /\
      warns_only iter_warning (world s) (iter client_reply value lg (world s)).
Proof.
  intros client_reply p name getter capture_io uuid sched s tr Hrun Hret n value lg.
  pose proof (ended_after_return _ _ _ _ _ _ _ _ _ Hrun Hret) as He.
  unfold warns_only, metric, param, iter. rewrite He. simpl.
  split_and!; reflexivity.
Qed.

Lemma calls_after_end_only_warn_witness :
  run_sched quiet_client demo_sched (demo_boot true) =
    Some (demo_final true, demo_trace true) /\
  (0 < count_ev is_end_return (demo_trace true))%nat /\
  warns_only (metric_warning "y") (world (demo_final true))
             (metric quiet_client "y" (PyInt 2) true (world (demo_final true))).
Proof.
  assert (Hret : (0 < count_ev is_end_return (demo_trace true))%nat)
    by (vm_compute; lia).
  split; [vm_compute; reflexivity|]. split; [exact Hret|].
  exact (proj1 (calls_after_end_only_warn quiet_client demo_process "demo" None true
                  "run-1" demo_sched (demo_final true) (demo_trace true)
                  ltac:(vm_compute; reflexivity) Hret "y" (PyInt 2) true)).
Defined.

(** C4 fails as stated: right after [end] is called on a fresh experiment
    the caller is at the check and nobody holds the lock; two statements
    later [_ended] is set and the lock is still free. *)
Lemma end_checks_without_the_lock :
  (exists s tr,
      run_sched quiet_client [EndCall] (demo_boot true) = Some (s, tr) /\
      caller s = InEnd E_check /\ lock (self (world s)) = false) /\
  (exists s tr,
      run_sched quiet_client [EndCall; EndStep; EndStep] (demo_boot true) = Some (s, tr) /\
      caller s = InEnd E_acquire /\ _ended (self (world s)) = true /\
      lock (self (world s)) = false) /\
  ~ check_is_made_under_the_lock.
Proof.
  split_and!.
  - eexists _, _. split_and!; reflexivity.
  - eexists _, _. split_and!; reflexivity.
  - intros H.
    specialize (H quiet_client demo_process "demo" None true "run-1" [EndCall]
                  _ _ eq_refl eq_refl).
    discriminate H.
Qed.

(** C4, amended. The check of [_ended] is the first statement [end]
    executes, before any side effect, and it is executed once; it is made
    without the instance lock, and so is the assignment of [_ended] that
    follows it.  The lock is held exactly while the streams are restored
    and the runner signal is updated (and until it is released). *)
Theorem end_checks_first_and_locks_the_restoration :
  forall client_reply p name getter capture_io uuid sched s tr,
    run_sched client_reply sched (boot p name getter capture_io uuid) = Some (s, tr) ->
    (forall w, exists rest, fst (end_ w) = E_check :: rest /\ ~ In E_check rest) /\
    (caller s = InEnd E_check -> lock (self (world s)) = false) /\
    (caller s = InEnd E_set_ended ->
     lock (self (world s)) = false /\ _ended (self (world s)) = false) /\
    (caller s = InEnd E_restore \/ caller s = InEnd E_exit_cleanly \/
     caller s = InEnd E_done -> lock (self (world s)) = true) /\
    lock (self (world s)) = holds_lock (caller s).
Proof.
  intros client_reply p name getter capture_io uuid sched s tr Hrun.
  pose proof (state_inv_reachable _ _ _ _ _ _ _ _ _ Hrun) as [Hl He _ _ _ _ _ _ _ _ _].
  simpl in Hl, He. split_and!.
  - intros w. rewrite end_unfold.
    destruct (_ended (self w)); simpl.
    { eexists; split; [reflexivity|]. simpl. intuition discriminate. }
    destruct (lock (self w)).
    { eexists; split; [reflexivity|]. simpl. intuition discriminate. }
    destruct (done_chan (self w));
      (eexists; split; [reflexivity|]; simpl; intuition discriminate).
  - intros Hc. rewrite Hl, Hc. reflexivity.
  - intros Hc. rewrite Hc in He. split; [rewrite Hl, Hc; reflexivity|].
    apply He. reflexivity.
  - intros [Hc|[Hc|Hc]]; rewrite Hl, Hc; reflexivity.
  - exact Hl.
Qed.

Lemma end_checks_first_and_locks_the_restoration_witness :
  run_sched quiet_client [EndCall; EndStep; EndStep; EndStep] (demo_boot true) =
    Some ({| world := on_self (set_lock true)
                        (on_self (set_ended true) (world (demo_boot true)));
             caller := InEnd E_restore; worker := W_set_start |},
          [Ev_end_called; Ev_end E_check; Ev_end E_set_ended; Ev_end E_acquire]) /\
  lock (self (on_self (set_lock true)
                (on_self (set_ended true) (world (demo_boot true))))) = true.
Proof.
  assert (H : run_sched quiet_client [EndCall; EndStep; EndStep; EndStep] (demo_boot true) =
    Some ({| world := on_self (set_lock true)
                        (on_self (set_ended true) (world (demo_boot true)));
             caller := InEnd E_restore; worker := W_set_start |},
          [Ev_end_called; Ev_end E_check; Ev_end E_set_ended; Ev_end E_acquire]))
    by reflexivity.
  split; [exact H|].
  pose proof (end_checks_first_and_locks_the_restoration quiet_client demo_process
                "demo" None true "run-1" _ _ _ H) as (_ & _ & _ & Hlocked & _).
  exact (Hlocked (or_introl eq_refl)).
Defined.

(** C5. When importing Keras fails with [ImportError], every access to
    [callbacks.keras] returns [None] and none raises; as soon as the accessor
    has been used the import has been attempted exactly once, the cache
    holds [False], and any further access answers [None] and leaves the
    instance and the import machinery as they are. *)
Theorem keras_unavailable_is_tried_once :
  forall client_reply p name getter capture_io uuid sched s tr,
    keras_import p = Raise ImportError ->
    run_sched client_reply sched (boot p name getter capture_io uuid) = Some (s, tr) ->
    Forall answers_none tr /\
    (count_ev is_keras_access tr = 0%nat ->
     import_attempts (proc (world s)) = import_attempts p) /\
    ((1 <= count_ev is_keras_access tr)%nat ->
     import_attempts (proc (world s)) = import_attempts p ++ ["keras.callbacks"] /\
     _callbacks (self (world s)) !! KERAS = Some (PyBool false) /\
     keras (world s) = (Ok PyNone, world s)).
Proof.
  intros client_reply p name getter capture_io uuid sched s tr Hmissing Hrun.
  destruct (keras_inv_reachable _ _ _ _ _ _ _ _ _ Hmissing Hrun) as [Hc Ha].
  split_and!; [exact Ha| |].
  - intros Hn. destruct Hc as [(_ & _ & H)|(H & _ & _)]; [exact H | lia].
  - intros Hn. destruct Hc as [(H & _ & _)|(_ & Hcache & Hatt)]; [lia|].
    split_and!; auto. apply keras_cached_unavailable. exact Hcache.
Qed.

Lemma keras_unavailable_is_tried_once_witness :
  keras_import demo_process = Raise ImportError /\
  run_sched quiet_client demo_sched (demo_boot true) =
    Some (demo_final true, demo_trace true) /\
  count_ev is_keras_access (demo_trace true) = 2%nat /\
  import_attempts (proc (world (demo_final true))) = ["keras.callbacks"].
Proof.
  split; [reflexivity|]. split; [vm_compute; reflexivity|]. split; [vm_compute; reflexivity|].
  pose proof (keras_unavailable_is_tried_once quiet_client demo_process "demo" None true
                "run-1" demo_sched (demo_final true) (demo_trace true) eq_refl
                ltac:(vm_compute; reflexivity)) as (_ & _ & Hused).
  exact (proj1 (Hused ltac:(vm_compute; lia))).
Defined.

(** C6 fails as stated: the payload [{accuracy: 0.9}] contains an accuracy
    value and no loss value, and the event makes no report at all, neither
    to a recording experiment nor, on an [Experiment], to the delivery
    client or the logger.  The adapter reads the entries [val_accuracy] and
    [val_loss] only. *)
Lemma epoch_end_ignores_other_keys :
  on_epoch_end recording_metric 3 (Some {["accuracy" := PyFloat 9 (-1)]}) [] =
    (Ok PyNone, []) /\
  on_epoch_end (metric quiet_client) 3 (Some {["accuracy" := PyFloat 9 (-1)]})
               (world keras_boot) =
    (Ok PyNone, world keras_boot).
Proof. split; vm_compute; reflexivity. Qed.

(** C6, amended. An end-of-epoch event whose payload has an entry
    [val_accuracy] (with a value other than [None]) and no entry [val_loss]
    makes exactly one report, for that accuracy, and none for the loss: the
    injected experiment receives the single call
    [metric("val_accuracy", v)], and on an [Experiment] the event does what
    that one call of [metric] does. *)
Theorem epoch_end_reports_accuracy_only :
  forall (logs : gmap string pyval) (v : pyval) (epoch : Z),
    logs !! "val_accuracy" = Some v ->
    v <> PyNone ->
    logs !! "val_loss" = None ->
    (forall reports,
        on_epoch_end recording_metric epoch (Some logs) reports =
        (Ok PyNone, reports ++ [("val_accuracy", v, true)])) /\
    (forall client_reply w,
        on_epoch_end (metric client_reply) epoch (Some logs) w =
        (match fst (metric client_reply "val_accuracy" v true w) with
         | Ok _ => Ok PyNone
         | Raise e => Raise e
         end,
         snd (metric client_reply "val_accuracy" v true w))) /\
    (forall client_reply w,
        _ended (self w) = false ->
        _hd_client (self (snd (on_epoch_end (metric client_reply) epoch (Some logs) w))) =
        _hd_client (self w) ++ [ClientMetric "val_accuracy" v true]).
Proof.
  intros logs v epoch Hacc Hv Hloss.
  assert (Hne : logs <> ∅).
  { intros ->. rewrite lookup_empty in Hacc. discriminate. }
  assert (Hgen : forall St (m : string -> pyval -> bool -> St -> result pyval * St) st,
             on_epoch_end m epoch (Some logs) st =
             (match fst (m "val_accuracy" v true st) with
              | Ok _ => Ok PyNone
              | Raise e => Raise e
              end, snd (m "val_accuracy" v true st))).
  { intros St m st. unfold on_epoch_end.
    destruct (decide (logs = ∅)) as [He|_]; [contradiction|].
    unfold dict_get. rewrite Hacc, Hloss. simpl.
    assert (Hnn : is_not_None v = true) by (destruct v; auto; contradiction).
    rewrite Hnn. destruct (m "val_accuracy" v true st) as [[a|e] st1]; reflexivity. }
  split_and!.
  - intros reports. rewrite Hgen. reflexivity.
  - intros client_reply w. apply Hgen.
  - intros client_reply w He. rewrite Hgen. unfold metric, forward. rewrite He.
    reflexivity.
Qed.

Lemma epoch_end_reports_accuracy_only_witness :
  ({["val_accuracy" := PyFloat 9 (-1)]} : gmap string pyval) !! "val_accuracy"
    = Some (PyFloat 9 (-1)) /\
  PyFloat 9 (-1) <> PyNone /\
  ({["val_accuracy" := PyFloat 9 (-1)]} : gmap string pyval) !! "val_loss" = None /\
  on_epoch_end recording_metric 3 (Some {["val_accuracy" := PyFloat 9 (-1)]}) [] =
    (Ok PyNone, [("val_accuracy", PyFloat 9 (-1), true)]).
Proof.
  assert (Hacc : ({["val_accuracy" := PyFloat 9 (-1)]} : gmap string pyval)
                   !! "val_accuracy" = Some (PyFloat 9 (-1)))
    by (vm_compute; reflexivity).
  assert (Hv : PyFloat 9 (-1) <> PyNone) by discriminate.
  assert (Hloss : ({["val_accuracy" := PyFloat 9 (-1)]} : gmap string pyval)
                    !! "val_loss" = None)
    by (vm_compute; reflexivity).
  split; [exact Hacc|]. split; [exact Hv|]. split; [exact Hloss|].
  exact (proj1 (epoch_end_reports_accuracy_only _ _ 3 Hacc Hv Hloss) []).
Defined.

(** C7. With [capture_io] false the constructor leaves [sys.stdout] and
    [sys.stderr] as they were; they stay so in every state the experiment
    reaches, in particular after [end] has returned; and the restoration
    statement of [end] assigns to the two slots the objects they already
    hold. *)
Theorem capture_disabled_keeps_the_streams :
  forall client_reply p name getter uuid sched s tr,
    run_sched client_reply sched (boot p name getter false uuid) = Some (s, tr) ->
    (sys_stdout (proc (Experiment__init__ p name getter false uuid)) = sys_stdout p /\
     sys_stderr (proc (Experiment__init__ p name getter false uuid)) = sys_stderr p) /\
    (sys_stdout (proc (world s)) = sys_stdout p /\
     sys_stderr (proc (world s)) = sys_stderr p) /\
    end_step E_restore (world s) = Goto E_exit_cleanly (world s).
Proof.
  intros client_reply p name getter uuid sched s tr Hrun.
  pose proof (state_inv_reachable _ _ _ _ _ _ _ _ _ Hrun)
    as [_ _ _ _ _ _ Hoo Hoe Hst _ _].
  simpl in Hoo, Hoe, Hst. specialize (Hst eq_refl). destruct Hst as [Hso Hse].
  split_and!; auto.
  simpl. rewrite Hoo, Hoe, <- Hso, <- Hse.
  destruct (world s) as [[] ?]. reflexivity.
Qed.

Lemma capture_disabled_keeps_the_streams_witness :
  run_sched quiet_client demo_sched (demo_boot false) =
    Some (demo_final false, demo_trace false) /\
  count_ev is_end_return (demo_trace false) = 1%nat /\
  sys_stdout (proc (world (demo_final false))) = Stream 1 /\
  sys_stderr (proc (world (demo_final false))) = Stream 2.
Proof.
  split; [vm_compute; reflexivity|]. split; [vm_compute; reflexivity|].
  pose proof (capture_disabled_keeps_the_streams quiet_client demo_process "demo" None
                "run-1" demo_sched (demo_final false) (demo_trace false)
                ltac:(vm_compute; reflexivity)) as (_ & Hkept & _).
  exact Hkept.
Defined.

(** C8 fails as stated: both times are readings of [datetime.now()], the
    local wall clock; when it is set back between the two readings the
    completed run has its start time after its end time. *)
Lemma start_after_end_when_clock_set_back :
  (exists s tr,
      run_sched quiet_client clock_set_back (demo_boot true) = Some (s, tr) /\
      worker s = W_exited /\
      ExperimentRunner.get_start_and_end_time (_experiment_runner (self (world s))) =
        (Some 100, Some 50)) /\
  ~ start_never_after_end.
Proof.
  split.
  - eexists _, _. split_and!; reflexivity.
  - intros H.
    specialize (H quiet_client demo_process "demo" None true "run-1" clock_set_back
                  _ _ 100 50 eq_refl eq_refl eq_refl).
    lia.
Qed.

(** C8, amended. Provided the wall clock is not set back between the
    worker's two readings of it, whenever both timestamps are set the start
    time is not after the end time (what the clock does before the first
    reading or after the second does not matter).  In every run the worker
    records the start time before the run loop is executed and the end time
    after the run loop has returned, and a worker that has completed has
    set both. *)
Theorem start_not_after_end_with_steady_clock :
  forall client_reply p name getter capture_io uuid sched s tr,
    run_sched client_reply sched (boot p name getter capture_io uuid) = Some (s, tr) ->
    (clock_steady (between_readings tr) = true ->
     forall t1 t2,
       ExperimentRunner.get_start_and_end_time (_experiment_runner (self (world s))) =
         (Some t1, Some t2) ->
       t1 <= t2) /\
    before is_loop_event
           (fun tr1 => count_ev is_set_start tr1 = 1%nat /\ count_ev is_set_end tr1 = 0%nat)
           tr /\
    before is_set_end (fun tr1 => count_ev is_loop_return tr1 = 1%nat) tr /\
    (worker s = W_exited ->
     exists t1 t2,
       ExperimentRunner.get_start_and_end_time (_experiment_runner (self (world s))) =
         (Some t1, Some t2)).
Proof.
  intros client_reply p name getter capture_io uuid sched s tr Hrun.
  destruct (times_inv_reachable _ _ _ _ _ _ _ _ _ Hrun) as (Hst & Htr & Htm).
  pose proof (inv_times _ _ _ _ _ Hst) as Ht. simpl in Ht.
  split_and!.
  - intros Hsteady t1 t2 H. unfold ExperimentRunner.get_start_and_end_time in H.
    inversion H as [[H1 H2]].
    pose proof (tm_readings _ _ Htm) as Hrd. unfold between_readings in Hsteady.
    destruct (worker s); simpl in Ht, Hrd;
      try (destruct Ht as [_ Hnone]; congruence).
    + destruct Hrd as (evs & Hr & Hle). rewrite Hr in Hsteady. eapply Hle; eauto.
    + destruct Hrd as (evs & Hr & Hle). rewrite Hr in Hsteady. eapply Hle; eauto.
  - apply Htm.
  - apply Htr.
  - intros Hw. rewrite Hw in Ht.
    simpl in Ht. destruct Ht as [[t1 H1] [t2 H2]].
    exists t1, t2. unfold ExperimentRunner.get_start_and_end_time.
    rewrite H1, H2. reflexivity.
Qed.

Lemma start_not_after_end_with_steady_clock_witness :
  run_sched quiet_client clock_set_back_outside (demo_boot true) =
    Some (final_of true clock_set_back_outside, trace_of true clock_set_back_outside) /\
  clock_steady (trace_of true clock_set_back_outside) = false /\
  clock_steady (between_readings (trace_of true clock_set_back_outside)) = true /\
  ExperimentRunner.get_start_and_end_time
    (_experiment_runner (self (world (final_of true clock_set_back_outside)))) =
    (Some 50, Some 70) /\
  50 <= 70.
Proof.
  assert (Hsteady : clock_steady (between_readings (trace_of true clock_set_back_outside))
                    = true) by (vm_compute; reflexivity).
  assert (H : ExperimentRunner.get_start_and_end_time
                (_experiment_runner (self (world (final_of true clock_set_back_outside)))) =
              (Some 50, Some 70)) by (vm_compute; reflexivity).
  split; [vm_compute; reflexivity|]. split; [vm_compute; reflexivity|].
  split; [exact Hsteady|]. split; [exact H|].
  exact (proj1 (start_not_after_end_with_steady_clock quiet_client demo_process "demo"
                  None true "run-1" clock_set_back_outside
                  (final_of true clock_set_back_outside)
                  (trace_of true clock_set_back_outside)
                  ltac:(vm_compute; reflexivity)) Hsteady 50 70 H).
Defined.

(** C9. [log] does not look at [_ended]: also after [end] has returned it
    returns [None], hands the message to the logger as an INFO record, and
    changes nothing else; no warning is emitted. *)
Theorem log_after_end_still_logs :
  forall client_reply p name getter capture_io uuid sched s tr,
    run_sched client_reply sched (boot p name getter capture_io uuid) = Some (s, tr) ->
    (0 < count_ev is_end_return tr)%nat ->
    forall msg,
      _ended (self (world s)) = true /\
      log msg (world s) =
        (Ok PyNone, on_self (set_logger (info msg (_logger (self (world s))))) (world s)) /\
      records (_logger (self (snd (log msg (world s))))) =
        records (_logger (self (world s))) ++ [INFO msg] /\
      _hd_client (self (snd (log msg (world s)))) = _hd_client (self (world s)).
Proof.
  intros client_reply p name getter capture_io uuid sched s tr Hrun Hret msg.
  split_and!; try reflexivity.
  eapply ended_after_return; eauto.
Qed.

Lemma log_after_end_still_logs_witness :
  run_sched quiet_client demo_sched (demo_boot true) =
    Some (demo_final true, demo_trace true) /\
  (0 < count_ev is_end_return (demo_trace true))%nat /\
  records (_logger (self (snd (log "hello" (world (demo_final true)))))) =
    records (_logger (self (world (demo_final true)))) ++ [INFO "hello"].
Proof.
  split; [vm_compute; reflexivity|]. split; [vm_compute; lia|].
  pose proof (log_after_end_still_logs quiet_client demo_process "demo" None true "run-1"
                demo_sched (demo_final true) (demo_trace true)
                ltac:(vm_compute; reflexivity) ltac:(vm_compute; lia) "hello")
    as (_ & _ & Hrecords & _).
  exact Hrecords.
Defined.

(** C10. In every state an experiment reaches, [exit_cleanly] of its
    runner signal is true, and [is_done()] returns [(True, done)]. *)
Theorem exit_cleanly_is_always_true :
  forall client_reply p name getter capture_io uuid sched s tr,
    run_sched client_reply sched (boot p name getter capture_io uuid) = Some (s, tr) ->
    ExperimentRunner.exit_cleanly (_experiment_runner (self (world s))) = true /\
    ExperimentRunner.is_done (_experiment_runner (self (world s))) =
      Some (true, ExperimentRunner.done (_experiment_runner (self (world s)))).
Proof.
  intros client_reply p name getter capture_io uuid sched s tr Hrun.
  pose proof (state_inv_reachable _ _ _ _ _ _ _ _ _ Hrun)
    as [_ _ _ _ Hx Hrl _ _ _ _ _].
  simpl in Hx, Hrl. split; [exact Hx|].
  unfold ExperimentRunner.is_done. rewrite Hrl, Hx. reflexivity.
Qed.

Lemma exit_cleanly_is_always_true_witness :
  run_sched quiet_client demo_sched (demo_boot true) =
    Some (demo_final true, demo_trace true) /\
  ExperimentRunner.is_done (_experiment_runner (self (world (demo_final true)))) =
    Some (true, true).
Proof.
  split; [vm_compute; reflexivity|].
  assert (Hd : ExperimentRunner.done (_experiment_runner (self (world (demo_final true))))
               = true) by (vm_compute; reflexivity).
  pose proof (exit_cleanly_is_always_true quiet_client demo_process "demo" None true
                "run-1" demo_sched (demo_final true) (demo_trace true)
                ltac:(vm_compute; reflexivity)) as (_ & Hdone).
  rewrite Hd in Hdone. exact Hdone.
Defined.

(** ** Further properties of the module *)

Lemma emits_records (emits : list log_record) (l : Logger) :
  records (fold_left (fun l r => emit r l) emits l) = records l ++ emits /\
  logger_name (fold_left (fun l r => emit r l) emits l) = logger_name l /\
  logger_run (fold_left (fun l r => emit r l) emits l) = logger_run l /\
  logger_sink (fold_left (fun l r => emit r l) emits l) = logger_sink l.
Proof.
  revert l. induction emits as [|r emits IH]; intros l; simpl.
  - rewrite app_nil_r. auto.
  - destruct (IH (emit r l)) as (H1 & H2 & H3 & H4).
    rewrite H1, H2, H3, H4. simpl. rewrite <- app_assoc. auto.
Qed.

Section MoreInvariants.

Variable client_reply : list client_call -> client_call -> result pyval * list log_record.

Lemma extra_inv_boot p name getter capture_io uuid :
  extra_inv p capture_io (boot p name getter capture_io uuid) [].
Proof.
  split; simpl; auto; try discriminate.
  - intros ->. reflexivity.
  - intros [H|H]; [discriminate | contradiction].
Qed.

Lemma extra_inv_step p capture_io a s s' e tr :
  state_inv p capture_io s ->
  extra_inv p capture_io s tr ->
  sys_step client_reply a s = Some (s', e) ->
  extra_inv p capture_io s' (tr ++ [e]).
Proof.
  intros Hst [Hd Hs Hc Hr] Hstep.
  destruct s as [w c wk]. unfold state_inv in *. simpl in *.
  destruct a; simpl in Hstep.
  - destruct c; [|discriminate].
    destruct (do_call client_reply c0 w) as [[r w1]|] eqn:Hcall; [|discriminate].
    apply do_call_core in Hcall. inversion Hstep; subst; clear Hstep. simpl in *.
    assert (He : _ended (self w1) = _ended (self w))
      by (change (c_ended (core w1) = c_ended (core w)); rewrite Hcall; reflexivity).
    assert (Hrun : _experiment_runner (self w1) = _experiment_runner (self w))
      by (change (c_runner (core w1) = c_runner (core w)); rewrite Hcall; reflexivity).
    assert (Hso : sys_stdout (proc w1) = sys_stdout (proc w))
      by (change (c_stdout (core w1) = c_stdout (core w)); rewrite Hcall; reflexivity).
    assert (Hse : sys_stderr (proc w1) = sys_stderr (proc w))
      by (change (c_stderr (core w1) = c_stderr (core w)); rewrite Hcall; reflexivity).
    split; simpl; rewrite ?count_ev_snoc, ?He, ?Hrun, ?Hso, ?Hse; simpl;
      rewrite ?Nat.add_0_r; auto.
  - destruct c; [|discriminate]. inversion Hstep; subst; clear Hstep. simpl in *.
    split; simpl; rewrite ?count_ev_snoc; simpl; rewrite ?Nat.add_0_r; auto.
    intros _. lia.
  - destruct c as [|pc]; [discriminate|].
    assert (Hcalled : (0 < count_ev is_end_called tr)%nat)
      by (apply Hc; right; discriminate).
    destruct Hst as [Hl0 He0 _ _ _ _ Hoo Hoe _ _ _]. simpl in *.
    destruct pc; simpl in Hstep.
    all: try (destruct (_ended (self w)) eqn:Hended).
    all: try (destruct (lock (self w)); [discriminate|]).
    all: try (destruct (done_chan (self w)) eqn:Hchan; [discriminate|]).
    all: inversion Hstep; subst; clear Hstep.
    all: try (specialize (He0 _ eq_refl)).
    all: simpl in *; rewrite ?Hended, ?He0 in *; simpl in *.
    all: split; simpl; rewrite ?count_ev_snoc, ?Hended, ?He0; simpl;
      rewrite ?Nat.add_0_r; auto; try lia; try discriminate.
    all: try (intros _; lia).
    all: try (intros Hcap; rewrite Hoo, Hoe; reflexivity).
  - destruct wk; simpl in Hstep; try discriminate.
    all: try (destruct ev).
    all: inversion Hstep; subst; clear Hstep.
    all: simpl in *.
    all: split; simpl; rewrite ?count_ev_snoc; simpl;
      rewrite ?Nat.add_0_r; auto; try lia; try discriminate.
  - inversion Hstep; subst; clear Hstep. simpl in *.
    split; simpl; rewrite ?count_ev_snoc; simpl; rewrite ?Nat.add_0_r; auto.
Qed.

Lemma all_invariants_reachable p name getter capture_io uuid sched s tr :
  run_sched client_reply sched (boot p name getter capture_io uuid) = Some (s, tr) ->
  state_inv p capture_io s /\ trace_inv s tr /\ extra_inv p capture_io s tr.
Proof.
  intros Hrun.
  apply (run_sched_ind client_reply
           (fun s tr => state_inv p capture_io s /\ trace_inv s tr /\
                        extra_inv p capture_io s tr)
           (boot p name getter capture_io uuid)) with (sched := sched);
    [split_and!; [apply state_inv_boot | apply trace_inv_boot | apply extra_inv_boot]
    | | exact Hrun].
  intros s1 tr1 a s2 e (Hst & Htr & Hx) Hstep. split_and!.
  - eapply state_inv_step; eauto.
  - eapply trace_inv_step; eauto.
  - eapply extra_inv_step; eauto.
Qed.

End MoreInvariants.

(** X1. With capture enabled the two stream slots hold the two fresh
    buffers from the construction on, as long as [end] has not set
    [_ended]; the restoration puts back the streams the process had before
    the construction, already before [end] waits for the worker, and they
    are in place whenever [end] has returned. *)
Theorem capture_enabled_redirects_until_end_restores :
  forall client_reply p name getter uuid sched s tr,
    run_sched client_reply sched (boot p name getter true uuid) = Some (s, tr) ->
    (_ended (self (world s)) = false ->
     sys_stdout (proc (world s)) = IOBuffer (next_buffer p) /\
     sys_stderr (proc (world s)) = IOBuffer (S (next_buffer p))) /\
    (caller s = InEnd E_get ->
     sys_stdout (proc (world s)) = sys_stdout p /\
     sys_stderr (proc (world s)) = sys_stderr p) /\
    ((0 < count_ev is_end_return tr)%nat ->
     sys_stdout (proc (world s)) = sys_stdout p /\
     sys_stderr (proc (world s)) = sys_stderr p).
Proof.
  intros client_reply p name getter uuid sched s tr Hrun.
  destruct (all_invariants_reachable _ _ _ _ _ _ _ _ _ Hrun) as (Hst & Htr & Hx).
  pose proof (x_streams _ _ _ _ Hx eq_refl) as Hs.
  split_and!.
  - intros He. rewrite He in Hs. simpl in Hs. inversion Hs. auto.
  - intros Hc. pose proof (inv_ended _ _ _ _ _ Hst) as He. simpl in He.
    rewrite Hc in He, Hs. rewrite (He true eq_refl) in Hs. simpl in Hs.
    inversion Hs. auto.
  - intros Hret. pose proof (t_returned _ _ Htr Hret) as Hc.
    unfold consumed in Hc. apply andb_true_iff in Hc as [He Hc].
    rewrite He in Hs. unfold restored in Hs. simpl in Hs.
    destruct (caller s) as [|[]]; try discriminate; inversion Hs; auto.
Qed.

Lemma capture_enabled_redirects_until_end_restores_witness :
  run_sched quiet_client end_called_early (demo_boot true) =
    Some (final_of true end_called_early, trace_of true end_called_early) /\
  caller (final_of true end_called_early) = InEnd E_get /\
  sys_stdout (proc (world (final_of true end_called_early))) = Stream 1 /\
  sys_stderr (proc (world (final_of true end_called_early))) = Stream 2.
Proof.
  assert (Hc : caller (final_of true end_called_early) = InEnd E_get)
    by (vm_compute; reflexivity).
  split; [vm_compute; reflexivity|]. split; [exact Hc|].
  pose proof (capture_enabled_redirects_until_end_restores quiet_client demo_process
                "demo" None "run-1" end_called_early (final_of true end_called_early)
                (trace_of true end_called_early) ltac:(vm_compute; reflexivity))
    as (_ & Hwaiting & _).
  exact (Hwaiting Hc).
Defined.

(** X2. [is_done()] answers [(True, False)] as long as [end] has never
    been called; [end] sets [done] before it waits for the worker; and
    whenever [end] has returned, [is_done()] answers [(True, True)], the
    instance lock is free, the channel is empty and the worker has
    exited. *)
Theorem done_flag_follows_end :
  forall client_reply p name getter capture_io uuid sched s tr,
    run_sched client_reply sched (boot p name getter capture_io uuid) = Some (s, tr) ->
    (count_ev is_end_called tr = 0%nat ->
     _ended (self (world s)) = false /\
     ExperimentRunner.is_done (_experiment_runner (self (world s))) = Some (true, false)) /\
    (caller s = InEnd E_get ->
     ExperimentRunner.is_done (_experiment_runner (self (world s))) = Some (true, true)) /\
    ((0 < count_ev is_end_return tr)%nat ->
     _ended (self (world s)) = true /\
     ExperimentRunner.is_done (_experiment_runner (self (world s))) = Some (true, true) /\
     lock (self (world s)) = false /\
     done_chan (self (world s)) = [] /\
     worker s = W_exited).
Proof.
  intros client_reply p name getter capture_io uuid sched s tr Hrun.
  destruct (all_invariants_reachable _ _ _ _ _ _ _ _ _ Hrun) as (Hst & Htr & Hx).
  pose proof (x_done _ _ _ _ Hx) as Hd.
  pose proof (inv_exit_cleanly _ _ _ _ _ Hst) as Hxc.
  pose proof (inv_runner_lock _ _ _ _ _ Hst) as Hrl.
  simpl in Hxc, Hrl.
  assert (Hdone : forall b, done_at (_ended (self (world s))) (caller s) = b ->
            ExperimentRunner.is_done (_experiment_runner (self (world s))) = Some (true, b)).
  { intros b Hb. unfold ExperimentRunner.is_done. rewrite Hrl, Hxc, Hd, Hb. reflexivity. }
  split_and!.
  - intros Hn.
    assert (He : _ended (self (world s)) = false).
    { destruct (_ended (self (world s))) eqn:He; [|reflexivity].
      pose proof (x_called _ _ _ _ Hx (or_introl He)). lia. }
    split; [exact He|]. apply Hdone. rewrite He. reflexivity.
  - intros Hc. apply Hdone.
    pose proof (inv_ended _ _ _ _ _ Hst) as He. simpl in He.
    rewrite Hc in *. rewrite (He true eq_refl). reflexivity.
  - intros Hret. pose proof (t_returned _ _ Htr Hret) as Hc.
    pose proof (inv_consumed _ _ _ _ _ Hst Hc) as Hwk.
    pose proof (inv_chan _ _ _ _ _ Hst) as Hch.
    pose proof (inv_lock _ _ _ _ _ Hst) as Hl. simpl in Hch, Hl.
    rewrite Hc in Hch. rewrite andb_false_r in Hch.
    unfold consumed in Hc. apply andb_true_iff in Hc as [He Hc].
    split_and!; auto.
    + apply Hdone. rewrite He. unfold done_at. simpl.
      destruct (caller s) as [|[]]; try discriminate; reflexivity.
    + rewrite Hl. destruct (caller s) as [|[]]; try discriminate; reflexivity.
Qed.

Lemma done_flag_follows_end_witness :
  run_sched quiet_client demo_sched (demo_boot true) =
    Some (demo_final true, demo_trace true) /\
  (0 < count_ev is_end_return (demo_trace true))%nat /\
  ExperimentRunner.is_done (_experiment_runner (self (world (demo_final true)))) =
    Some (true, true).
Proof.
  assert (Hret : (0 < count_ev is_end_return (demo_trace true))%nat)
    by (vm_compute; lia).
  split; [vm_compute; reflexivity|]. split; [exact Hret|].
  pose proof (done_flag_follows_end quiet_client demo_process "demo" None true "run-1"
                demo_sched (demo_final true) (demo_trace true)
                ltac:(vm_compute; reflexivity)) as (_ & _ & Hafter).
  exact (proj1 (proj2 (Hafter Hret))).
Defined.

(** X3. As long as [end] has never been called, every call of [metric],
    [param] or [iter] is forwarded to the delivery client with its
    arguments unchanged and the client's answer is passed through (an
    exception included); the logger receives what the client hands it for
    the call and nothing from the experiment itself, and nothing else
    changes. *)
Theorem calls_before_end_are_forwarded :
  forall client_reply p name getter capture_io uuid sched s tr,
    run_sched client_reply sched (boot p name getter capture_io uuid) = Some (s, tr) ->
    count_ev is_end_called tr = 0%nat ->
    forall n value lg,
      forwards client_reply (ClientMetric n value lg) (world s)
               (metric client_reply n value lg (world s)) /\
      forwards client_reply (ClientParam n value lg) (world s)
               (param client_reply n value lg (world s)) /\
      forwards client_reply (ClientIter value lg) (world s)
               (iter client_reply value lg (world s)).
Proof.
  intros client_reply p name getter capture_io uuid sched s tr Hrun Hn n value lg.
  destruct (all_invariants_reachable _ _ _ _ _ _ _ _ _ Hrun) as (_ & _ & Hx).
  assert (He : _ended (self (world s)) = false).
  { destruct (_ended (self (world s))) eqn:He; [|reflexivity].
    pose proof (x_called _ _ _ _ Hx (or_introl He)). lia. }
  unfold forwards, metric, param, iter, forward. rewrite He. simpl.
  split_and!; try reflexivity; apply emits_records.
Qed.

Lemma calls_before_end_are_forwarded_witness :
  run_sched logging_client [] (demo_boot true) = Some (demo_boot true, []) /\
  count_ev is_end_called [] = 0%nat /\
  _hd_client (self (snd (metric logging_client "y" (PyInt 2) true
                           (world (demo_boot true))))) =
    [ClientMetric "y" (PyInt 2) true] /\
  records (_logger (self (snd (metric logging_client "y" (PyInt 2) true
                                 (world (demo_boot true)))))) =
    [INFO "y"].
Proof.
  split; [reflexivity|]. split; [reflexivity|].
  pose proof (calls_before_end_are_forwarded logging_client demo_process "demo" None true
                "run-1" [] (demo_boot true) [] eq_refl eq_refl
                "y" (PyInt 2) true) as ((_ & Hsent & Hlogged & _) & _).
  split; [exact Hsent | exact Hlogged].
Defined.

(** X4. When [self._hd.run()] raises, the worker closure is left before
    its [put]: no token is ever put, the end time is never set, and a call
    of [end] never returns; having set [_ended], restored the streams and
    set [done], it stays at the [get]. *)
Theorem end_never_returns_when_loop_raises :
  forall client_reply p name getter capture_io uuid sched s tr,
    run_sched client_reply sched (boot p name getter capture_io uuid) = Some (s, tr) ->
    (0 < count_ev is_raised tr)%nat ->
    worker s = W_died /\
    count_ev is_put tr = 0%nat /\
    count_ev is_end_return tr = 0%nat /\
    done_chan (self (world s)) = [] /\
    ExperimentRunner.end_time (_experiment_runner (self (world s))) = None /\
    (forall a s' e, sys_step client_reply a s = Some (s', e) -> worker s' = W_died) /\
    (caller s = InEnd E_get -> sys_step client_reply EndStep s = None).
Proof.
  intros client_reply p name getter capture_io uuid sched s tr Hrun Hraised.
  destruct (all_invariants_reachable _ _ _ _ _ _ _ _ _ Hrun) as (Hst & Htr & Hx).
  pose proof (x_raised _ _ _ _ Hx) as Hr.
  assert (Hwk : worker s = W_died).
  { destruct (bool_decide (worker s = W_died)) eqn:Hb; [|lia].
    apply bool_decide_eq_true in Hb. exact Hb. }
  pose proof (t_puts _ _ Htr) as Hp. rewrite Hwk in Hp. simpl in Hp.
  pose proof (inv_chan _ _ _ _ _ Hst) as Hch. simpl in Hch. rewrite Hwk in Hch.
  simpl in Hch.
  pose proof (inv_times _ _ _ _ _ Hst) as Ht. simpl in Ht. rewrite Hwk in Ht.
  split_and!; auto.
  - destruct (count_ev is_end_return tr) eqn:Hn; [reflexivity|].
    assert (Hc : consumed (_ended (self (world s))) (caller s) = true)
      by (apply (t_returned _ _ Htr); lia).
    pose proof (inv_consumed _ _ _ _ _ Hst Hc) as Hex. simpl in Hex. congruence.
  - apply Ht.
  - intros a s' e Hstep. destruct s as [w c wk]. simpl in *. subst wk.
    destruct a; simpl in Hstep.
    + destruct c; [|discriminate].
      destruct (do_call client_reply c0 w) as [[r w1]|]; [|discriminate].
      inversion Hstep; reflexivity.
    + destruct c; [|discriminate]. inversion Hstep; reflexivity.
    + destruct c as [|pc]; [discriminate|].
      destruct (end_step pc w); inversion Hstep; reflexivity.
    + discriminate.
    + inversion Hstep; reflexivity.
  - intros Hc. unfold sys_step. rewrite Hc. simpl. rewrite Hch. reflexivity.
Qed.

Lemma end_never_returns_when_loop_raises_witness :
  run_sched quiet_client loop_raises (demo_boot true) =
    Some (final_of true loop_raises, trace_of true loop_raises) /\
  (0 < count_ev is_raised (trace_of true loop_raises))%nat /\
  caller (final_of true loop_raises) = InEnd E_get /\
  sys_step quiet_client EndStep (final_of true loop_raises) = None.
Proof.
  assert (Hraised : (0 < count_ev is_raised (trace_of true loop_raises))%nat)
    by (vm_compute; lia).
  assert (Hc : caller (final_of true loop_raises) = InEnd E_get)
    by (vm_compute; reflexivity).
  split; [vm_compute; reflexivity|]. split; [exact Hraised|]. split; [exact Hc|].
  pose proof (end_never_returns_when_loop_raises quiet_client demo_process "demo" None
                true "run-1" loop_raises (final_of true loop_raises)
                (trace_of true loop_raises) ltac:(vm_compute; reflexivity) Hraised)
    as (_ & _ & _ & _ & _ & _ & Hstuck).
  exact (Hstuck Hc).
Defined.

Section Progress.

Variable client_reply : list client_call -> client_call -> result pyval * list log_record.

Lemma run_sched_cons a rest s :
  run_sched client_reply (a :: rest) s =
  match sys_step client_reply a s with
  | Some (s', e) =>
      match run_sched client_reply rest s' with
      | Some (s'', tr) => Some (s'', e :: tr)
      | None => None
      end
  | None => None
  end.
Proof. reflexivity. Qed.

(** Once the worker has exited, every statement of [end] can be executed. *)
Lemma end_step_progress p capture_io s pc :
  state_inv p capture_io s ->
  worker s = W_exited ->
  caller s = InEnd pc ->
  exists s',
    sys_step client_reply EndStep s = Some (s', Ev_end pc) /\
    worker s' = W_exited /\
    ((pc = E_return /\ caller s' = Idle /\ _ended (self (world s')) = true) \/
     (exists pc', caller s' = InEnd pc' /\ (end_rank pc' < end_rank pc)%nat)).
Proof.
  intros [Hl He Hc _ _ _ _ _ _ _ _] Hwk Hcaller.
  destruct s as [w c wk]. simpl in *. subst c wk.
  unfold sys_step. simpl caller. simpl world. simpl worker.
  destruct pc; simpl.
  - destruct (_ended (self w)); eexists; (split; [reflexivity|]); simpl;
      (split; [reflexivity|]); right; eexists; (split; [reflexivity|]); simpl; lia.
  - eexists; (split; [reflexivity|]); simpl;
      (split; [reflexivity|]); right; eexists; (split; [reflexivity|]); simpl; lia.
  - simpl in Hl. rewrite Hl.
    eexists; (split; [reflexivity|]); simpl;
      (split; [reflexivity|]); right; eexists; (split; [reflexivity|]); simpl; lia.
  - eexists; (split; [reflexivity|]); simpl;
      (split; [reflexivity|]); right; eexists; (split; [reflexivity|]); simpl; lia.
  - eexists; (split; [reflexivity|]); simpl;
      (split; [reflexivity|]); right; eexists; (split; [reflexivity|]); simpl; lia.
  - eexists; (split; [reflexivity|]); simpl;
      (split; [reflexivity|]); right; eexists; (split; [reflexivity|]); simpl; lia.
  - eexists; (split; [reflexivity|]); simpl;
      (split; [reflexivity|]); right; eexists; (split; [reflexivity|]); simpl; lia.
  - simpl in Hc. unfold consumed in Hc. rewrite andb_false_r in Hc. simpl in Hc.
    rewrite Hc. simpl.
    eexists; (split; [reflexivity|]); simpl;
      (split; [reflexivity|]); right; eexists; (split; [reflexivity|]); simpl; lia.
  - eexists; (split; [reflexivity|]); simpl.
    split; [reflexivity|]. left. split_and!; auto.
Qed.

Lemma end_finishes p capture_io k :
  forall s pc,
    (end_rank pc <= k)%nat ->
    state_inv p capture_io s ->
    worker s = W_exited ->
    caller s = InEnd pc ->
    exists n s' tr',
      (n <= k)%nat /\
      run_sched client_reply (replicate n EndStep) s = Some (s', tr') /\
      caller s' = Idle /\ worker s' = W_exited /\
      _ended (self (world s')) = true /\
      (0 < count_ev is_end_return tr')%nat.
Proof.
  induction k as [|k IH]; intros s pc Hk Hst Hwk Hc.
  - destruct pc; simpl in Hk; lia.
  - destruct (end_step_progress p capture_io s pc Hst Hwk Hc)
      as (s1 & Hstep & Hwk1 & Hnext).
    pose proof (state_inv_step client_reply _ _ _ _ _ _ Hst Hstep) as Hst1.
    destruct Hnext as [(-> & Hidle & He) | (pc' & Hc1 & Hlt)].
    + exists 1%nat, s1, [Ev_end E_return]. split; [lia|].
      cbn [replicate]. rewrite run_sched_cons, Hstep. simpl. split_and!; auto.
    + destruct (IH s1 pc' ltac:(lia) Hst1 Hwk1 Hc1)
        as (n & s' & tr' & Hn & Hrun & Hidle & Hwk' & He & Hret).
      exists (S n), s', (Ev_end pc :: tr'). split; [lia|].
      cbn [replicate]. rewrite run_sched_cons, Hstep, Hrun. split_and!; auto.
      simpl. lia.
Qed.

End Progress.

(** X5. Once the worker has exited, [end] does not block: from every
    state the experiment reaches with the worker exited, the caller, whether
    it calls [end] now or is already inside it (waiting at the [get], for
    instance), returns from [end] after at most nine statements, with
    [_ended] set. *)
Theorem end_returns_once_worker_exited :
  forall client_reply p name getter capture_io uuid sched s tr,
    run_sched client_reply sched (boot p name getter capture_io uuid) = Some (s, tr) ->
    worker s = W_exited ->
    exists n s' tr',
      (n <= 9)%nat /\
      run_sched client_reply (finish_end (caller s) n) s = Some (s', tr') /\
      caller s' = Idle /\
      _ended (self (world s')) = true /\
      (0 < count_ev is_end_return tr')%nat.
Proof.
  intros client_reply p name getter capture_io uuid sched s tr Hrun Hwk.
  pose proof (state_inv_reachable _ _ _ _ _ _ _ _ _ Hrun) as Hst.
  destruct (caller s) as [|pc] eqn:Hc.
  - assert (Hstep : sys_step client_reply EndCall s =
                    Some ({| world := world s; caller := InEnd E_check;
                             worker := worker s |}, Ev_end_called))
      by (unfold sys_step; rewrite Hc; reflexivity).
    pose proof (state_inv_step client_reply _ _ _ _ _ _ Hst Hstep) as Hst1.
    destruct (end_finishes client_reply p capture_io 9 _ E_check ltac:(simpl; lia)
                Hst1 Hwk eq_refl)
      as (n & s' & tr' & Hn & Hrun' & Hidle & _ & He & Hret).
    exists n, s', (Ev_end_called :: tr'). split; [exact Hn|].
    unfold finish_end. rewrite run_sched_cons, Hstep, Hrun'. split_and!; auto.
  - destruct (end_finishes client_reply p capture_io 9 s pc
                ltac:(destruct pc; simpl; lia) Hst Hwk Hc)
      as (n & s' & tr' & Hn & Hrun' & Hidle & _ & He & Hret).
    exists n, s', tr'. split_and!; auto.
Qed.

Lemma end_returns_once_worker_exited_witness :
  run_sched quiet_client worker_completes (demo_boot true) =
    Some (final_of true worker_completes, trace_of true worker_completes) /\
  worker (final_of true worker_completes) = W_exited /\
  exists n s' tr',
    (n <= 9)%nat /\
    run_sched quiet_client (finish_end (caller (final_of true worker_completes)) n)
              (final_of true worker_completes) = Some (s', tr') /\
    caller s' = Idle /\
    _ended (self (world s')) = true /\
    (0 < count_ev is_end_return tr')%nat.
Proof.
  split; [vm_compute; reflexivity|]. split; [vm_compute; reflexivity|].
  exact (end_returns_once_worker_exited quiet_client demo_process "demo" None true
           "run-1" worker_completes (final_of true worker_completes)
           (trace_of true worker_completes) ltac:(vm_compute; reflexivity)
           ltac:(vm_compute; reflexivity)).
Defined.

(** What every report keeps, the end-of-epoch event keeps. *)
Lemma on_epoch_end_keeps {St : Type}
    (m : string -> pyval -> bool -> St -> result pyval * St) (I : St -> Prop) :
  (forall n v l st, I st -> I (snd (m n v l st))) ->
  forall epoch logs st, I st -> I (snd (on_epoch_end m epoch logs st)).
Proof.
  intros Hm epoch logs st Hst. unfold on_epoch_end.
  set (d := match logs with Some d => _ | None => _ end).
  assert (H1 : I (snd (if is_not_None (dict_get d "val_accuracy")
                       then m "val_accuracy" (dict_get d "val_accuracy") true st
                       else (Ok PyNone, st)))).
  { destruct (is_not_None _); [apply Hm; exact Hst | exact Hst]. }
  destruct (if is_not_None (dict_get d "val_accuracy") then _ else _) as [r1 st1].
  simpl in H1. destruct r1 as [a|e]; [|exact H1].
  assert (H2 : I (snd (if is_not_None (dict_get d "val_loss")
                       then m "val_loss" (dict_get d "val_loss") true st1
                       else (Ok PyNone, st1)))).
  { destruct (is_not_None _); [apply Hm; exact H1 | exact H1]. }
  destruct (if is_not_None (dict_get d "val_loss") then _ else _) as [r2 st2].
  simpl in H2. destruct r2; exact H2.
Qed.

Section AfterEnd.

Variable client_reply : list client_call -> client_call -> result pyval * list log_record.

Lemma do_call_after_end c w r w' :
  do_call client_reply c w = Some (r, w') ->
  _ended (self w) = true ->
  _ended (self w') = true /\ _hd_client (self w') = _hd_client (self w).
Proof.
  intros Hcall He.
  destruct c as [name value lg|name value lg|n lg|msg| |epoch logs]; simpl in Hcall.
  - unfold metric in Hcall. rewrite He in Hcall. inversion Hcall; subst. auto.
  - unfold param in Hcall. rewrite He in Hcall. inversion Hcall; subst. auto.
  - unfold iter in Hcall. rewrite He in Hcall. inversion Hcall; subst. auto.
  - inversion Hcall; subst. auto.
  - unfold keras in Hcall.
    destruct (is_False _); [inversion Hcall; subst; auto|].
    destruct (negb _); [|inversion Hcall; subst; auto].
    simpl in Hcall. destruct (keras_import (proc w)) as [u|[|msg]];
      inversion Hcall; subst; auto.
  - destruct (dict_get _ _); try discriminate.
    pose proof (on_epoch_end_keeps (metric client_reply)
                  (fun w' => _ended (self w') = true /\
                             _hd_client (self w') = _hd_client (self w))) as Hk.
    assert (Hgoal : _ended (self (snd (on_epoch_end (metric client_reply) epoch logs w)))
                    = true /\
                    _hd_client (self (snd (on_epoch_end (metric client_reply) epoch logs w)))
                    = _hd_client (self w)).
    { apply Hk; [|auto]. intros n v l st [He1 Hc1]. unfold metric. rewrite He1. simpl. auto. }
    destruct (on_epoch_end _ _ _ _) as [r1 w1]. inversion Hcall; subst. exact Hgoal.
Qed.

Lemma step_after_end a s s' e :
  sys_step client_reply a s = Some (s', e) ->
  _ended (self (world s)) = true ->
  _ended (self (world s')) = true /\
  _hd_client (self (world s')) = _hd_client (self (world s)).
Proof.
  intros Hstep He. destruct s as [w c wk]. simpl in *.
  destruct a; simpl in Hstep.
  - destruct c; [|discriminate].
    destruct (do_call client_reply c0 w) as [[r w1]|] eqn:Hcall; [|discriminate].
    inversion Hstep; subst. simpl. eapply do_call_after_end; eauto.
  - destruct c; [|discriminate]. inversion Hstep; subst. auto.
  - destruct c as [|pc]; [discriminate|].
    destruct pc; simpl in Hstep.
    all: try rewrite He in Hstep.
    all: try (destruct (lock (self w)); [discriminate|]).
    all: try (destruct (done_chan (self w)); [discriminate|]).
    all: inversion Hstep; subst; simpl; auto.
  - destruct wk; simpl in Hstep; try discriminate.
    all: try (destruct ev).
    all: inversion Hstep; subst; simpl; auto.
  - inversion Hstep; subst; simpl; auto.
Qed.

End AfterEnd.

(** X6. The ended flag is never reset, and once it is set nothing is
    forwarded to the delivery client any more, whatever the caller calls
    next ([metric], [param], [iter], [log], the callback accessor, an
    end-of-epoch event, [end] again) and whatever the worker does. *)
Theorem nothing_is_forwarded_once_ended :
  forall client_reply sched s s' tr,
    run_sched client_reply sched s = Some (s', tr) ->
    _ended (self (world s)) = true ->
    _ended (self (world s')) = true /\
    _hd_client (self (world s')) = _hd_client (self (world s)).
Proof.
  intros client_reply sched. induction sched as [|a sched IH]; intros s s' tr Hrun He.
  - simpl in Hrun. inversion Hrun; subst. auto.
  - simpl in Hrun.
    destruct (sys_step client_reply a s) as [[s1 e]|] eqn:Hstep; [|discriminate].
    destruct (run_sched client_reply sched s1) as [[s2 tr2]|] eqn:Hrest; [|discriminate].
    inversion Hrun; subst.
    destruct (step_after_end _ _ _ _ _ Hstep He) as [He1 Hc1].
    destruct (IH _ _ _ Hrest He1) as [He2 Hc2]. split; congruence.
Qed.

Lemma nothing_is_forwarded_once_ended_witness :
  run_sched quiet_client calls_after_end (demo_final true) =
    Some (match run_sched quiet_client calls_after_end (demo_final true) with
          | Some (s, _) => s
          | None => demo_final true
          end,
          match run_sched quiet_client calls_after_end (demo_final true) with
          | Some (_, tr) => tr
          | None => []
          end) /\
  _ended (self (world (demo_final true))) = true /\
  _hd_client (self (world (match run_sched quiet_client calls_after_end (demo_final true) with
                           | Some (s, _) => s
                           | None => demo_final true
                           end))) =
  _hd_client (self (world (demo_final true))).
Proof.
  assert (He : _ended (self (world (demo_final true))) = true)
    by (vm_compute; reflexivity).
  split; [vm_compute; reflexivity|]. split; [exact He|].
  exact (proj2 (nothing_is_forwarded_once_ended quiet_client calls_after_end
                  (demo_final true) _ _ ltac:(vm_compute; reflexivity) He)).
Defined.

Section WrittenOnce.

Variable client_reply : list client_call -> client_call -> result pyval * list log_record.

Lemma step_keeps_times p capture_io a s s' e :
  state_inv p capture_io s ->
  sys_step client_reply a s = Some (s', e) ->
  (forall t, ExperimentRunner.start_time (_experiment_runner (self (world s))) = Some t ->
             ExperimentRunner.start_time (_experiment_runner (self (world s'))) = Some t) /\
  (forall t, ExperimentRunner.end_time (_experiment_runner (self (world s))) = Some t ->
             ExperimentRunner.end_time (_experiment_runner (self (world s'))) = Some t).
Proof.
  intros Hst Hstep. destruct s as [w c wk]. unfold state_inv in Hst. simpl in *.
  destruct a; simpl in Hstep.
  - destruct c; [|discriminate].
    destruct (do_call client_reply c0 w) as [[r w1]|] eqn:Hcall; [|discriminate].
    apply do_call_core in Hcall. inversion Hstep; subst; clear Hstep. simpl.
    change (_experiment_runner (self w1)) with (c_runner (core w1)).
    rewrite Hcall. simpl. auto.
  - destruct c; [|discriminate]. inversion Hstep; subst. auto.
  - destruct c as [|pc]; [discriminate|].
    destruct pc; simpl in Hstep.
    all: try (destruct (_ended (self w))).
    all: try (destruct (lock (self w)); [discriminate|]).
    all: try (destruct (done_chan (self w)); [discriminate|]).
    all: inversion Hstep; subst; simpl; auto.
  - pose proof (inv_times _ _ _ _ _ Hst) as Ht. simpl in Ht.
    destruct wk; simpl in Hstep; try discriminate.
    all: try (destruct ev).
    all: inversion Hstep; subst; simpl in *; auto.
    all: destruct Ht as [Ht1 Ht2]; split; intros t H; congruence.
  - inversion Hstep; subst; simpl; auto.
Qed.

End WrittenOnce.

(** X7. Each timestamp is written once: from any state the experiment
    reaches, a start time or an end time that has been recorded keeps its
    value in every later state. *)
Theorem timestamps_are_written_once :
  forall client_reply p name getter capture_io uuid sched1 s1 tr1 sched2 s2 tr2,
    run_sched client_reply sched1 (boot p name getter capture_io uuid) = Some (s1, tr1) ->
    run_sched client_reply sched2 s1 = Some (s2, tr2) ->
    (forall t, ExperimentRunner.start_time (_experiment_runner (self (world s1))) = Some t ->
               ExperimentRunner.start_time (_experiment_runner (self (world s2))) = Some t) /\
    (forall t, ExperimentRunner.end_time (_experiment_runner (self (world s1))) = Some t ->
               ExperimentRunner.end_time (_experiment_runner (self (world s2))) = Some t).
Proof.
  intros client_reply p name getter capture_io uuid sched1 s1 tr1 sched2 s2 tr2 Hrun1.
  pose proof (state_inv_reachable _ _ _ _ _ _ _ _ _ Hrun1) as Hst. clear Hrun1.
  revert s1 tr2 Hst. induction sched2 as [|a sched2 IH]; intros s1 tr2 Hst Hrun2.
  - simpl in Hrun2. inversion Hrun2; subst. auto.
  - simpl in Hrun2.
    destruct (sys_step client_reply a s1) as [[s e]|] eqn:Hstep; [|discriminate].
    destruct (run_sched client_reply sched2 s) as [[s3 tr3]|] eqn:Hrest; [|discriminate].
    inversion Hrun2; subst.
    destruct (step_keeps_times client_reply _ _ _ _ _ _ Hst Hstep) as [Hs He].
    pose proof (state_inv_step client_reply _ _ _ _ _ _ Hst Hstep) as Hst'.
    destruct (IH _ _ Hst' Hrest) as [Hs' He']. split; auto.
Qed.

Lemma timestamps_are_written_once_witness :
  run_sched quiet_client [WorkerStep LoopReturns] (demo_boot true) =
    Some (final_of true [WorkerStep LoopReturns], trace_of true [WorkerStep LoopReturns]) /\
  ExperimentRunner.start_time
    (_experiment_runner (self (world (final_of true [WorkerStep LoopReturns])))) = Some 100 /\
  ExperimentRunner.start_time
    (_experiment_runner
       (self (world (final_of true ([WorkerStep LoopReturns; ClockSet 250] ++
                                    [WorkerStep LoopReturns; WorkerStep LoopReturns])))))
    = Some 100.
Proof.
  assert (H1 : run_sched quiet_client [WorkerStep LoopReturns] (demo_boot true) =
               Some (final_of true [WorkerStep LoopReturns],
                     trace_of true [WorkerStep LoopReturns]))
    by (vm_compute; reflexivity).
  assert (Hs : ExperimentRunner.start_time
                 (_experiment_runner (self (world (final_of true [WorkerStep LoopReturns]))))
               = Some 100) by (vm_compute; reflexivity).
  split; [exact H1|]. split; [exact Hs|].
  exact (proj1 (timestamps_are_written_once quiet_client demo_process "demo" None true
                  "run-1" [WorkerStep LoopReturns] _ _
                  [ClockSet 250; WorkerStep LoopReturns; WorkerStep LoopReturns]
                  (final_of true ([WorkerStep LoopReturns; ClockSet 250] ++
                                  [WorkerStep LoopReturns; WorkerStep LoopReturns]))
                  (match run_sched quiet_client
                           [ClockSet 250; WorkerStep LoopReturns; WorkerStep LoopReturns]
                           (final_of true [WorkerStep LoopReturns]) with
                   | Some (_, tr) => tr
                   | None => []
                   end)
                  H1 ltac:(vm_compute; reflexivity)) 100 Hs).
Defined.

Section RegistryMore.

Variable client_reply : list client_call -> client_call -> result pyval * list log_record.

(** Only an access to [callbacks.keras] touches the cache and the import
    machinery. *)
Lemma step_registry a s s' e :
  sys_step client_reply a s = Some (s', e) ->
  is_keras_access e = false ->
  registry (world s') = registry (world s).
Proof.
  intros Hstep He. destruct s as [w c wk]. simpl in *.
  destruct a; simpl in Hstep.
  - destruct c; [|discriminate].
    destruct c0 as [name value lg|name value lg|n lg|msg| |epoch logs]; simpl in Hstep.
    + pose proof (metric_registry client_reply name value lg w) as Hreg.
      destruct (metric _ _ _ _ _) as [r w1]. inversion Hstep; subst. exact Hreg.
    + pose proof (param_registry client_reply name value lg w) as Hreg.
      destruct (param _ _ _ _ _) as [r w1]. inversion Hstep; subst. exact Hreg.
    + pose proof (iter_registry client_reply n lg w) as Hreg.
      destruct (iter _ _ _ _) as [r w1]. inversion Hstep; subst. exact Hreg.
    + inversion Hstep; subst. reflexivity.
    + destruct (keras w) as [r w1]. inversion Hstep; subst. discriminate.
    + destruct (dict_get _ _); try discriminate.
      pose proof (on_epoch_end_keeps (metric client_reply)
                    (fun w' => registry w' = registry w)
                    (fun n v l st Hst =>
                       eq_trans (metric_registry client_reply n v l st) Hst)
                    epoch logs w eq_refl) as Hreg.
      destruct (on_epoch_end _ _ _ _) as [r w1]. inversion Hstep; subst. exact Hreg.
  - destruct c; [|discriminate]. inversion Hstep; subst. reflexivity.
  - destruct c as [|pc]; [discriminate|].
    pose proof (end_step_registry pc w) as Hreg.
    destruct (end_step pc w); inversion Hstep; subst; exact Hreg.
  - destruct (worker_step ev wk w) as [[pc' w']|] eqn:Hw; [|discriminate].
    inversion Hstep; subst. exact (worker_step_registry _ _ _ _ _ Hw).
  - inversion Hstep; subst. reflexivity.
Qed.

Lemma step_not_access a s s' e :
  sys_step client_reply a s = Some (s', e) ->
  is_keras_access e = false ->
  forall r, answers r e.
Proof.
  intros _ He r. destruct e; simpl; auto. destruct c; simpl in *; auto. discriminate.
Qed.

Lemma step_access a s s' e :
  sys_step client_reply a s = Some (s', e) ->
  is_keras_access e = true ->
  a = Call CallKeras /\ e = Ev_call CallKeras (fst (keras (world s))) /\
  world s' = snd (keras (world s)).
Proof.
  intros Hstep He. destruct s as [w c wk]. simpl in *.
  destruct a; simpl in Hstep.
  - destruct c; [|discriminate].
    destruct (do_call client_reply c0 w) as [[r w1]|] eqn:Hcall; [|discriminate].
    inversion Hstep; subst. simpl in He. destruct c0; try discriminate.
    simpl in Hcall. inversion Hcall. rewrite H0. auto.
  - destruct c; [|discriminate]. inversion Hstep; subst. discriminate.
  - destruct c as [|pc]; [discriminate|].
    destruct (end_step pc w); inversion Hstep; subst; discriminate.
  - destruct (worker_step ev wk w) as [[pc' w']|]; [|discriminate].
    inversion Hstep; subst. destruct wk, ev; discriminate.
  - inversion Hstep; subst. discriminate.
Qed.

Lemma keras_builds_adapter w :
  keras_import (proc w) = Ok tt ->
  _callbacks (self w) !! KERAS = None ->
  keras w =
    (Ok PyKerasCallback,
     on_self (set_callbacks (<[KERAS := PyKerasCallback]> (_callbacks (self w))))
             (on_proc (record_import "keras.callbacks") w)).
Proof.
  intros Hk Hc. unfold keras, dict_get. rewrite Hc. simpl. rewrite Hk. reflexivity.
Qed.

Lemma keras_cached_adapter w :
  _callbacks (self w) !! KERAS = Some PyKerasCallback ->
  keras w = (Ok PyKerasCallback, w).
Proof. intros Hc. unfold keras, dict_get. rewrite Hc. reflexivity. Qed.

Lemma keras_failure_propagates w e :
  keras_import (proc w) = Raise e ->
  e <> ImportError ->
  _callbacks (self w) !! KERAS = None ->
  keras w = (Raise e, on_proc (record_import "keras.callbacks") w).
Proof.
  intros Hk He Hc. unfold keras, dict_get. rewrite Hc. simpl. rewrite Hk.
  destruct e; [contradiction | reflexivity].
Qed.

Lemma keras_ok_inv_step p capture_io a s s' e tr :
  keras_import p = Ok tt ->
  state_inv p capture_io s ->
  keras_ok_inv p s tr ->
  sys_step client_reply a s = Some (s', e) ->
  keras_ok_inv p s' (tr ++ [e]).
Proof.
  intros Hok Hst [Hc Ha] Hstep.
  assert (Hk : keras_import (proc (world s)) = Ok tt).
  { pose proof (inv_keras _ _ _ _ _ Hst) as Hk. simpl in Hk. congruence. }
  destruct (is_keras_access e) eqn:He.
  - destruct (step_access _ _ _ _ Hstep He) as (_ & -> & Hw).
    destruct Hc as [(Hn & Hcache & Hatt) | (Hn & Hcache & Hatt)].
    + rewrite (keras_builds_adapter _ Hk Hcache) in *. simpl in Hw. split.
      * right. rewrite count_ev_snoc. simpl. rewrite Hw. simpl.
        split; [lia|]. split; [apply lookup_insert_eq | rewrite Hatt; reflexivity].
      * apply Forall_app; split; [exact Ha|]. constructor; [reflexivity|constructor].
    + rewrite (keras_cached_adapter _ Hcache) in *. simpl in Hw. split.
      * right. rewrite count_ev_snoc. simpl. rewrite Hw. split; [lia|]. auto.
      * apply Forall_app; split; [exact Ha|]. constructor; [reflexivity|constructor].
  - pose proof (step_registry _ _ _ _ Hstep He) as Hreg. split.
    + rewrite count_ev_snoc, He, Nat.add_0_r.
      change (_callbacks (self (world s'))) with (g_callbacks (registry (world s'))).
      change (import_attempts (proc (world s'))) with (g_attempts (registry (world s'))).
      rewrite Hreg. exact Hc.
    + apply Forall_app; split; [exact Ha|]. constructor; [|constructor].
      eapply step_not_access; eauto.
Qed.

Lemma keras_broken_inv_step p capture_io x a s s' e tr :
  keras_import p = Raise x ->
  x <> ImportError ->
  state_inv p capture_io s ->
  keras_broken_inv p x s tr ->
  sys_step client_reply a s = Some (s', e) ->
  keras_broken_inv p x s' (tr ++ [e]).
Proof.
  intros Hbroken Hx Hst [Hc Hatt Ha] Hstep.
  assert (Hk : keras_import (proc (world s)) = Raise x).
  { pose proof (inv_keras _ _ _ _ _ Hst) as Hk. simpl in Hk. congruence. }
  destruct (is_keras_access e) eqn:He.
  - destruct (step_access _ _ _ _ Hstep He) as (_ & -> & Hw).
    rewrite (keras_failure_propagates _ _ Hk Hx Hc) in *. simpl in Hw. split.
    + rewrite Hw. exact Hc.
    + rewrite Hw, count_ev_snoc. simpl. rewrite Hatt. unfold attempts_after.
      rewrite <- app_assoc. f_equal.
      rewrite Nat.add_1_r. simpl. symmetry. apply replicate_cons_app.
    + apply Forall_app; split; [exact Ha|]. constructor; [reflexivity|constructor].
  - pose proof (step_registry _ _ _ _ Hstep He) as Hreg. split.
    + change (_callbacks (self (world s'))) with (g_callbacks (registry (world s'))).
      rewrite Hreg. exact Hc.
    + rewrite count_ev_snoc, He, Nat.add_0_r.
      change (import_attempts (proc (world s'))) with (g_attempts (registry (world s'))).
      rewrite Hreg. exact Hatt.
    + apply Forall_app; split; [exact Ha|]. constructor; [|constructor].
      eapply step_not_access; eauto.
Qed.

End RegistryMore.

(** X8. When Keras can be imported, every access to [callbacks.keras]
    returns the adapter; the import is executed on the first access only,
    the adapter built then is cached, and any further access returns it and
    leaves the instance and the import machinery as they are. *)
Theorem keras_available_is_built_once :
  forall client_reply p name getter capture_io uuid sched s tr,
    keras_import p = Ok tt ->
    run_sched client_reply sched (boot p name getter capture_io uuid) = Some (s, tr) ->
    Forall (answers (Ok PyKerasCallback)) tr /\
    (count_ev is_keras_access tr = 0%nat ->
     import_attempts (proc (world s)) = import_attempts p /\
     _callbacks (self (world s)) !! KERAS = None) /\
    ((1 <= count_ev is_keras_access tr)%nat ->
     import_attempts (proc (world s)) = import_attempts p ++ ["keras.callbacks"] /\
     _callbacks (self (world s)) !! KERAS = Some PyKerasCallback /\
     keras (world s) = (Ok PyKerasCallback, world s)).
Proof.
  intros client_reply p name getter capture_io uuid sched s tr Hok Hrun.
  assert (Hinv : state_inv p capture_io s /\ keras_ok_inv p s tr).
  { apply (run_sched_ind client_reply
             (fun s tr => state_inv p capture_io s /\ keras_ok_inv p s tr)
             (boot p name getter capture_io uuid)) with (sched := sched);
      [split; [apply state_inv_boot|] | | exact Hrun].
    - split; simpl; [|constructor]. left. split; [reflexivity|].
      split; [apply lookup_empty|]. destruct capture_io; reflexivity.
    - intros s1 tr1 a s2 e [Hst Hk] Hstep. split.
      + eapply state_inv_step; eauto.
      + eapply keras_ok_inv_step; eauto. }
  destruct Hinv as [_ [Hc Ha]]. split_and!; [exact Ha| |].
  - intros Hn. destruct Hc as [(_ & Hcache & Hatt)|(H & _ & _)]; [auto | lia].
  - intros Hn. destruct Hc as [(H & _ & _)|(_ & Hcache & Hatt)]; [lia|].
    split_and!; auto. apply keras_cached_adapter. exact Hcache.
Qed.

Lemma keras_available_is_built_once_witness :
  keras_import keras_process = Ok tt /\
  run_sched quiet_client keras_sched keras_boot =
    Some (final_from keras_boot keras_sched, trace_from keras_boot keras_sched) /\
  count_ev is_keras_access (trace_from keras_boot keras_sched) = 2%nat /\
  import_attempts (proc (world (final_from keras_boot keras_sched))) = ["keras.callbacks"].
Proof.
  split; [reflexivity|]. split; [vm_compute; reflexivity|].
  split; [vm_compute; reflexivity|].
  pose proof (keras_available_is_built_once quiet_client keras_process "demo" None true
                "run-1" keras_sched (final_from keras_boot keras_sched)
                (trace_from keras_boot keras_sched) eq_refl
                ltac:(vm_compute; reflexivity)) as (_ & _ & Hused).
  exact (proj1 (Hused ltac:(vm_compute; lia))).
Defined.

(** X9. When importing Keras raises anything but [ImportError], the
    accessor does not catch it: every access raises that exception, nothing
    is cached, so the import is attempted again on every access, and no
    adapter ever exists on which an end-of-epoch event could be fired. *)
Theorem keras_other_failure_is_not_cached :
  forall client_reply p name getter capture_io uuid sched s tr x,
    keras_import p = Raise x ->
    x <> ImportError ->
    run_sched client_reply sched (boot p name getter capture_io uuid) = Some (s, tr) ->
    Forall (answers (Raise x)) tr /\
    import_attempts (proc (world s)) =
      import_attempts p ++ replicate (count_ev is_keras_access tr) "keras.callbacks" /\
    _callbacks (self (world s)) !! KERAS = None /\
    (forall epoch logs, do_call client_reply (CallOnEpochEnd epoch logs) (world s) = None).
Proof.
  intros client_reply p name getter capture_io uuid sched s tr x Hbroken Hx Hrun.
  assert (Hinv : state_inv p capture_io s /\ keras_broken_inv p x s tr).
  { apply (run_sched_ind client_reply
             (fun s tr => state_inv p capture_io s /\ keras_broken_inv p x s tr)
             (boot p name getter capture_io uuid)) with (sched := sched);
      [split; [apply state_inv_boot|] | | exact Hrun].
    - split; simpl; [apply lookup_empty | | constructor].
      unfold attempts_after. simpl. rewrite app_nil_r.
      destruct capture_io; reflexivity.
    - intros s1 tr1 a s2 e [Hst Hk] Hstep. split.
      + eapply state_inv_step; eauto.
      + eapply keras_broken_inv_step; eauto. }
  destruct Hinv as [_ [Hc Hatt Ha]]. split_and!; auto.
  intros epoch logs. simpl. unfold dict_get. rewrite Hc. reflexivity.
Qed.

Lemma keras_other_failure_is_not_cached_witness :
  keras_import broken_process = Raise (Exception "AttributeError") /\
  Exception "AttributeError" <> ImportError /\
  run_sched quiet_client [Call CallKeras; Call CallKeras; Call CallKeras] broken_boot =
    Some (final_from broken_boot [Call CallKeras; Call CallKeras; Call CallKeras],
          trace_from broken_boot [Call CallKeras; Call CallKeras; Call CallKeras]) /\
  Forall (answers (Raise (Exception "AttributeError")))
         (trace_from broken_boot [Call CallKeras; Call CallKeras; Call CallKeras]).
Proof.
  assert (Hx : Exception "AttributeError" <> ImportError) by discriminate.
  split; [reflexivity|]. split; [exact Hx|]. split; [vm_compute; reflexivity|].
  exact (proj1 (keras_other_failure_is_not_cached quiet_client broken_process "demo" None
                  true "run-1" [Call CallKeras; Call CallKeras; Call CallKeras]
                  (final_from broken_boot [Call CallKeras; Call CallKeras; Call CallKeras])
                  (trace_from broken_boot [Call CallKeras; Call CallKeras; Call CallKeras])
                  (Exception "AttributeError") eq_refl Hx ltac:(vm_compute; reflexivity))).
Defined.

Lemma payload_of_event (logs : option (gmap string pyval)) :
  match logs with
  | None => ∅
  | Some d => if decide (d = ∅) then ∅ else d
  end = default ∅ logs.
Proof.
  destruct logs as [d|]; [|reflexivity]. simpl.
  destruct (decide (d = ∅)) as [->|]; reflexivity.
Qed.

Lemma entry_report_get (d : gmap string pyval) (k : string) :
  entry_report d k =
  if is_not_None (dict_get d k) then [(k, dict_get d k, true)] else [].
Proof.
  unfold entry_report, dict_get. destruct (d !! k) as [v|]; reflexivity.
Qed.

Lemma entry_report_elem (d : gmap string pyval) (k n : string) (v : pyval) (l : bool) :
  (n, v, l) ∈ entry_report d k <->
  n = k /\ l = true /\ v <> PyNone /\ d !! k = Some v.
Proof.
  unfold entry_report. destruct (d !! k) as [v0|] eqn:Hk.
  - destruct (is_not_None v0) eqn:Hn.
    + rewrite list_elem_of_singleton. split.
      * intros H. inversion H; subst. split_and!; auto.
        intros ->. discriminate.
      * intros (-> & -> & _ & H). inversion H; subst. reflexivity.
    + rewrite elem_of_nil. split; [tauto|].
      intros (_ & _ & Hv & H). inversion H; subst.
      destruct v; try discriminate. contradiction.
  - rewrite elem_of_nil. split; [tauto|]. intros (_ & _ & _ & H). discriminate.
Qed.

(** X10. An end-of-epoch event reports exactly the entries [val_accuracy]
    and [val_loss] that are present in the payload with a value other than
    [None], the accuracy first, each once, with the value found and with
    logging on; a missing payload, an empty one, other keys and [None] values
    give no report, and the event returns [None]. *)
Theorem epoch_end_reports_exactly_the_present_entries :
  forall (epoch : Z) (logs : option (gmap string pyval))
         (reports : list (string * pyval * bool)),
    on_epoch_end recording_metric epoch logs reports =
      (Ok PyNone, reports ++ epoch_reports logs) /\
    (forall n v l,
        (n, v, l) ∈ epoch_reports logs <->
        (n = "val_accuracy" \/ n = "val_loss") /\ l = true /\ v <> PyNone /\
        exists d, logs = Some d /\ d !! n = Some v) /\
    NoDup (epoch_reports logs) /\
    (length (epoch_reports logs) <= 2)%nat.
Proof.
  intros epoch logs reports. split_and!.
  - unfold on_epoch_end. rewrite payload_of_event. unfold epoch_reports.
    rewrite !entry_report_get. unfold recording_metric.
    destruct (is_not_None (dict_get _ "val_accuracy"));
      destruct (is_not_None (dict_get _ "val_loss")); simpl;
      rewrite ?app_nil_r, <- ?app_assoc; reflexivity.
  - intros n v l. unfold epoch_reports. rewrite elem_of_app, !entry_report_elem.
    split.
    + intros [(-> & -> & Hv & Hd) | (-> & -> & Hv & Hd)].
      * split_and!; auto. destruct logs as [d|]; [eauto|].
        simpl in Hd. rewrite lookup_empty in Hd. discriminate.
      * split_and!; auto. destruct logs as [d|]; [eauto|].
        simpl in Hd. rewrite lookup_empty in Hd. discriminate.
    + intros (Hn & -> & Hv & d & -> & Hd). simpl.
      destruct Hn as [-> | ->]; [left | right]; auto.
  - unfold epoch_reports. rewrite !entry_report_get.
    destruct (is_not_None (dict_get _ "val_accuracy"));
      destruct (is_not_None (dict_get _ "val_loss")); simpl;
      repeat constructor; rewrite ?list_elem_of_singleton, ?elem_of_nil;
      try tauto; discriminate.
  - unfold epoch_reports. rewrite !entry_report_get.
    destruct (is_not_None (dict_get _ "val_accuracy"));
      destruct (is_not_None (dict_get _ "val_loss")); simpl; lia.
Qed.

(** X11. On an experiment that has not ended and whose delivery client
    answers, an end-of-epoch event forwards its reports to the client in
    order, as [metric] calls with logging on, and returns [None]; the logger
    receives what the client hands it for these calls and nothing from the
    experiment itself, and nothing else changes. *)
Theorem epoch_end_forwards_its_reports :
  forall client_reply epoch logs w,
    (forall h c, exists v, fst (client_reply h c) = Ok v) ->
    _ended (self w) = false ->
    on_epoch_end (metric client_reply) epoch logs w =
      (Ok PyNone,
       on_self (set_logger
                  (fold_left (fun l r => emit r l)
                             (client_emits client_reply (_hd_client (self w))
                                           (map report_call (epoch_reports logs)))
                             (_logger (self w))))
               (on_self (set_hd_client (_hd_client (self w) ++
                                        map report_call (epoch_reports logs))) w)).
Proof.
  intros client_reply epoch logs w Hreply He.
  unfold on_epoch_end. rewrite payload_of_event. unfold epoch_reports.
  rewrite !entry_report_get. unfold metric, forward. rewrite He.
  destruct (is_not_None (dict_get _ "val_accuracy")) eqn:Ha.
  - destruct (Hreply (_hd_client (self w))
                (ClientMetric "val_accuracy" (dict_get (default ∅ logs) "val_accuracy") true))
      as [v1 Hv1].
    rewrite Hv1. simpl. rewrite He.
    destruct (is_not_None (dict_get _ "val_loss")) eqn:Hl.
    + destruct (Hreply (_hd_client (self w) ++
                        [ClientMetric "val_accuracy"
                           (dict_get (default ∅ logs) "val_accuracy") true])
                  (ClientMetric "val_loss" (dict_get (default ∅ logs) "val_loss") true))
        as [v2 Hv2].
      rewrite Hv2. simpl. rewrite app_nil_r, fold_left_app, <- app_assoc. reflexivity.
    + simpl. rewrite app_nil_r. reflexivity.
  - simpl. rewrite He.
    destruct (is_not_None (dict_get _ "val_loss")) eqn:Hl.
    + destruct (Hreply (_hd_client (self w))
                  (ClientMetric "val_loss" (dict_get (default ∅ logs) "val_loss") true))
        as [v2 Hv2].
      rewrite Hv2. simpl. rewrite app_nil_r. reflexivity.
    + simpl. rewrite app_nil_r. destruct w as [pr [ ]]. reflexivity.
Qed.

Lemma epoch_end_forwards_its_reports_witness :
  (forall h c, exists v, fst (logging_client h c) = Ok v) /\
  _ended (self (world keras_boot)) = false /\
  _hd_client (self (snd (on_epoch_end (metric logging_client) 0 (Some epoch_payload)
                           (world keras_boot)))) =
    [ClientMetric "val_accuracy" (PyFloat 9 (-1)) true;
     ClientMetric "val_loss" (PyFloat 3 (-1)) true] /\
  records (_logger (self (snd (on_epoch_end (metric logging_client) 0 (Some epoch_payload)
                                 (world keras_boot))))) =
    [INFO "val_accuracy"; INFO "val_loss"].
Proof.
  assert (Hq : forall h c, exists v, fst (logging_client h c) = Ok v)
    by (intros h c; exists PyNone; reflexivity).
  split; [exact Hq|]. split; [reflexivity|].
  rewrite (epoch_end_forwards_its_reports logging_client 0 (Some epoch_payload)
             (world keras_boot) Hq eq_refl).
  split; vm_compute; reflexivity.
Defined.

(** X12. When the delivery client raises on the accuracy report, the
    end-of-epoch event raises the same exception and the loss is not
    reported: the client has received the accuracy call only, the logger
    what the client handed it for that call, and nothing else has
    changed. *)
Theorem epoch_end_stops_at_the_first_failure :
  forall client_reply epoch (d : gmap string pyval) va vl e w,
    _ended (self w) = false ->
    d !! "val_accuracy" = Some va -> va <> PyNone ->
    d !! "val_loss" = Some vl -> vl <> PyNone ->
    fst (client_reply (_hd_client (self w)) (ClientMetric "val_accuracy" va true)) =
      Raise e ->
    on_epoch_end (metric client_reply) epoch (Some d) w =
      (Raise e,
       on_self (set_logger
                  (fold_left (fun l r => emit r l)
                             (snd (client_reply (_hd_client (self w))
                                     (ClientMetric "val_accuracy" va true)))
                             (_logger (self w))))
               (on_self (set_hd_client (_hd_client (self w) ++
                                        [ClientMetric "val_accuracy" va true])) w)).
Proof.
  intros client_reply epoch d va vl e w He Ha Hva Hl Hvl Hreply.
  unfold on_epoch_end.
  assert (Hd : (if decide (d = ∅) then ∅ else d) = d)
    by (destruct (decide (d = ∅)) as [->|]; reflexivity).
  rewrite Hd. unfold dict_get. rewrite Ha, Hl. simpl.
  assert (Hn : is_not_None va = true) by (destruct va; auto; contradiction).
  rewrite Hn. unfold metric, forward. rewrite He, Hreply. reflexivity.
Qed.

Lemma epoch_end_stops_at_the_first_failure_witness :
  _ended (self (world keras_boot)) = false /\
  on_epoch_end (metric failing_client) 0 (Some epoch_payload) (world keras_boot) =
    (Raise (Exception "connection refused"),
     on_self (set_logger (warn "connection refused" (_logger (self (world keras_boot)))))
             (on_self (set_hd_client [ClientMetric "val_accuracy" (PyFloat 9 (-1)) true])
                      (world keras_boot))).
Proof.
  split; [reflexivity|].
  exact (epoch_end_stops_at_the_first_failure failing_client 0 epoch_payload
           (PyFloat 9 (-1)) (PyFloat 3 (-1)) (Exception "connection refused")
           (world keras_boot) eq_refl ltac:(vm_compute; reflexivity)
           ltac:(discriminate) ltac:(vm_compute; reflexivity) ltac:(discriminate)
           eq_refl).
Defined.

(** X13. On an experiment that has ended, an end-of-epoch event forwards
    nothing: it hands the logger one warning for each report it would have
    made, in order, and returns [None] without raising. *)
Theorem epoch_end_after_end_only_warns :
  forall client_reply epoch logs w,
    _ended (self w) = true ->
    on_epoch_end (metric client_reply) epoch logs w =
      (Ok PyNone,
       on_self (set_logger
                  (fold_left (fun l r => emit r l)
                             (map report_warning (epoch_reports logs))
                             (_logger (self w)))) w).
Proof.
  intros client_reply epoch logs w He.
  unfold on_epoch_end. rewrite payload_of_event. unfold epoch_reports.
  rewrite !entry_report_get. unfold metric. rewrite He.
  destruct (is_not_None (dict_get _ "val_accuracy")) eqn:Ha;
    destruct (is_not_None (dict_get _ "val_loss")) eqn:Hl; simpl; rewrite ?He;
    try reflexivity.
  destruct w as [pr [ ]]. reflexivity.
Qed.

Lemma epoch_end_after_end_only_warns_witness :
  _ended (self (on_self (set_ended true) (world keras_boot))) = true /\
  records (_logger (self (snd (on_epoch_end (metric quiet_client) 0 (Some epoch_payload)
                                 (on_self (set_ended true) (world keras_boot)))))) =
  [WARNING (metric_warning "val_accuracy"); WARNING (metric_warning "val_loss")].
Proof.
  split; [reflexivity|].
  rewrite (epoch_end_after_end_only_warns quiet_client 0 (Some epoch_payload)
             (on_self (set_ended true) (world keras_boot)) eq_refl).
  vm_compute. reflexivity.
Defined.

Section Wiring.

Variable client_reply : list client_call -> client_call -> result pyval * list log_record.

Lemma forward_identity c w : identity (snd (forward client_reply c w)) = identity w.
Proof.
  unfold forward, identity. simpl.
  destruct (emits_records (snd (client_reply (_hd_client (self w)) c)) (_logger (self w)))
    as (_ & H2 & H3 & H4).
  rewrite H2, H3, H4. reflexivity.
Qed.

Lemma metric_identity name value lg w :
  identity (snd (metric client_reply name value lg w)) = identity w.
Proof.
  unfold metric. destruct (_ended (self w)); [reflexivity | apply forward_identity].
Qed.

Lemma param_identity name value lg w :
  identity (snd (param client_reply name value lg w)) = identity w.
Proof.
  unfold param. destruct (_ended (self w)); [reflexivity | apply forward_identity].
Qed.

Lemma iter_identity n lg w :
  identity (snd (iter client_reply n lg w)) = identity w.
Proof.
  unfold iter. destruct (_ended (self w)); [reflexivity | apply forward_identity].
Qed.

Lemma keras_identity w : identity (snd (keras w)) = identity w.
Proof.
  unfold keras.
  destruct (is_False _); [reflexivity|].
  destruct (negb _); [|reflexivity].
  simpl. destruct (keras_import (proc w)) as [u|[|msg]]; reflexivity.
Qed.

Lemma step_identity a s s' e :
  sys_step client_reply a s = Some (s', e) ->
  identity (world s') = identity (world s).
Proof.
  intros Hstep. destruct s as [w c wk]. simpl in *.
  destruct a; simpl in Hstep.
  - destruct c; [|discriminate].
    destruct c0 as [name value lg|name value lg|n lg|msg| |epoch logs]; simpl in Hstep.
    + pose proof (metric_identity name value lg w) as H.
      destruct (metric _ _ _ _ _) as [r w1]. inversion Hstep; subst. exact H.
    + pose proof (param_identity name value lg w) as H.
      destruct (param _ _ _ _ _) as [r w1]. inversion Hstep; subst. exact H.
    + pose proof (iter_identity n lg w) as H.
      destruct (iter _ _ _ _) as [r w1]. inversion Hstep; subst. exact H.
    + inversion Hstep; subst. reflexivity.
    + pose proof (keras_identity w) as H.
      destruct (keras w) as [r w1]. inversion Hstep; subst. exact H.
    + destruct (dict_get _ _); try discriminate.
      pose proof (on_epoch_end_keeps (metric client_reply)
                    (fun w' => identity w' = identity w)
                    (fun n v l st Hst => eq_trans (metric_identity n v l st) Hst)
                    epoch logs w eq_refl) as H.
      destruct (on_epoch_end _ _ _ _) as [r w1]. inversion Hstep; subst. exact H.
  - destruct c; [|discriminate]. inversion Hstep; subst. reflexivity.
  - destruct c as [|pc]; [discriminate|].
    destruct pc; simpl in Hstep.
    all: try (destruct (_ended (self w))).
    all: try (destruct (lock (self w)); [discriminate|]).
    all: try (destruct (done_chan (self w)); [discriminate|]).
    all: inversion Hstep; subst; reflexivity.
  - destruct wk; simpl in Hstep; try discriminate.
    all: try (destruct ev).
    all: inversion Hstep; subst; try reflexivity.
    destruct (emits_records emits (_logger (self w))) as (_ & H2 & H3 & H4).
    unfold identity. simpl. rewrite H2, H3, H4. reflexivity.
  - inversion Hstep; subst. reflexivity.
Qed.

End Wiring.

(** X15. The identity of an instance is fixed by the constructor: in every
    state the experiment reaches, the model name is the one given, the
    logger still carries that name and the run identifier and still writes
    to the first capture buffer (with capture on or off, before and after
    [end]), and the two buffers handed to the run loop are the two allocated
    by the constructor. *)
Theorem identity_is_fixed_by_the_constructor :
  forall client_reply p name getter capture_io uuid sched s tr,
    run_sched client_reply sched (boot p name getter capture_io uuid) = Some (s, tr) ->
    model_name (self (world s)) = name /\
    logger_name (_logger (self (world s))) = name /\
    logger_run (_logger (self (world s))) = uuid /\
    logger_sink (_logger (self (world s))) = IOBuffer (next_buffer p) /\
    _hd_out (self (world s)) = (IOBuffer (next_buffer p), IOBuffer (S (next_buffer p))).
Proof.
  intros client_reply p name getter capture_io uuid sched s tr Hrun.
  assert (Hid : identity (world s) =
                identity (world (boot p name getter capture_io uuid))).
  { apply (run_sched_ind client_reply
             (fun s _ => identity (world s) =
                         identity (world (boot p name getter capture_io uuid)))
             (boot p name getter capture_io uuid)) with (sched := sched) (tr := tr);
      [reflexivity | | exact Hrun].
    intros s1 tr1 a s2 e Hi Hstep.
    pose proof (step_identity _ _ _ _ _ Hstep) as Hi'. congruence. }
  unfold identity in Hid. simpl in Hid. inversion Hid. auto.
Qed.

Lemma identity_is_fixed_by_the_constructor_witness :
  run_sched quiet_client demo_sched (demo_boot false) =
    Some (demo_final false, demo_trace false) /\
  logger_sink (_logger (self (world (demo_final false)))) = IOBuffer 0.
Proof.
  split; [vm_compute; reflexivity|].
  pose proof (identity_is_fixed_by_the_constructor quiet_client demo_process "demo" None
                false "run-1" demo_sched (demo_final false) (demo_trace false)
                ltac:(vm_compute; reflexivity)) as (_ & _ & _ & Hsink & _).
  exact Hsink.
Defined.

(** X16. The only statement at which [end] can wait is the [get] on the
    channel, and only while the worker has not exited: the instance lock is
    always free when [end] reaches [with self.lock]. *)
Theorem end_waits_only_at_the_get :
  forall client_reply p name getter capture_io uuid sched s tr pc,
    run_sched client_reply sched (boot p name getter capture_io uuid) = Some (s, tr) ->
    caller s = InEnd pc ->
    sys_step client_reply EndStep s = None ->
    pc = E_get /\ done_chan (self (world s)) = [] /\ worker s <> W_exited.
Proof.
  intros client_reply p name getter capture_io uuid sched s tr pc Hrun Hc Hstuck.
  pose proof (state_inv_reachable _ _ _ _ _ _ _ _ _ Hrun) as [Hl He Hch _ _ _ _ _ _ _ _].
  destruct s as [w c wk]. simpl in *. subst c.
  unfold sys_step in Hstuck. simpl in Hstuck.
  destruct pc; simpl in Hstuck, Hl; try discriminate.
  - destruct (_ended (self w)); discriminate.
  - rewrite Hl in Hstuck. discriminate.
  - destruct (done_chan (self w)) as [|item rest] eqn:Hq; [|discriminate].
    split_and!; auto. intros ->. simpl in Hch.
    unfold consumed in Hch. rewrite andb_false_r in Hch. discriminate.
Qed.

Lemma end_waits_only_at_the_get_witness :
  run_sched quiet_client end_called_early (demo_boot true) =
    Some (final_of true end_called_early, trace_of true end_called_early) /\
  caller (final_of true end_called_early) = InEnd E_get /\
  sys_step quiet_client EndStep (final_of true end_called_early) = None /\
  worker (final_of true end_called_early) <> W_exited.
Proof.
  assert (Hc : caller (final_of true end_called_early) = InEnd E_get)
    by (vm_compute; reflexivity).
  assert (Hs : sys_step quiet_client EndStep (final_of true end_called_early) = None)
    by (vm_compute; reflexivity).
  split; [vm_compute; reflexivity|]. split; [exact Hc|]. split; [exact Hs|].
  pose proof (end_waits_only_at_the_get quiet_client demo_process "demo" None true "run-1"
                end_called_early (final_of true end_called_early)
                (trace_of true end_called_early) E_get ltac:(vm_compute; reflexivity)
                Hc Hs) as (_ & _ & Hwk).
  exact Hwk.
Defined.
